(** * CrossOriginStorage: a content-addressed cache adapter

    A shallow embedding of the [CrossOriginStorage] class (the cache
    adapter that keys large model files by their SHA-256 digest) and of
    the JavaScript string and regular-expression operations it relies
    on, followed by the properties of its [match], [put], [_getFileHash]
    and [_getBlobHash] methods. *)

From Stdlib Require Import String Ascii NArith Bool Arith Lia List.
From Stdlib Require Strings.Byte.
Import ListNotations.

Set Implicit Arguments.

(** ** JavaScript strings

    A JavaScript string is a sequence of UTF-16 code units. *)

Module Js.

Definition code_unit := N.
Definition jsstring := list code_unit.

(** A string literal of the source, as code units. *)
Definition js (s : string) : jsstring :=
  map N_of_ascii (list_ascii_of_string s).

(** The line feed, written [\n] in the source. *)
Definition LF : code_unit := 10%N.

(** LineTerminator of the language: LF, CR, LS and PS. *)
Definition is_line_terminator (c : code_unit) : bool :=
  (c =? 10)%N || (c =? 13)%N || (c =? 8232)%N || (c =? 8233)%N.

(** The class [\w]: [A-Za-z0-9_]. *)
Definition is_word_char (c : code_unit) : bool :=
  ((97 <=? c) && (c <=? 122))%N || ((65 <=? c) && (c <=? 90))%N
  || ((48 <=? c) && (c <=? 57))%N || (c =? 95)%N.

(** [s.startsWith(t)]. *)
Fixpoint startsWith (s t : jsstring) {struct t} : bool :=
  match t with
  | [] => true
  | b :: t' =>
      match s with
      | [] => false
      | a :: s' => (a =? b)%N && startsWith s' t'
      end
  end.

(** [String.prototype.includes]: [t] occurs in [s] at some index. *)
Fixpoint includes (s t : jsstring) : bool :=
  startsWith s t ||
  match s with
  | [] => false
  | _ :: s' => includes s' t
  end.

(** Digit of [Number.prototype.toString(16)]: lowercase. *)
Definition hex_digit (d : N) : code_unit :=
  (if d <? 10 then 48 + d else 87 + d)%N.

Fixpoint toString16_aux (fuel : nat) (n : N) (acc : jsstring) : jsstring :=
  let acc' := hex_digit (n mod 16) :: acc in
  match fuel with
  | O => acc'
  | S fuel' => if (n / 16 =? 0)%N then acc' else toString16_aux fuel' (n / 16) acc'
  end.

(** [n.toString(16)] for a non-negative integer [n]. *)
Definition toString16 (n : N) : jsstring :=
  toString16_aux (N.to_nat (N.size n)) n [].

Fixpoint cycle (fuel : nat) (fill cur : jsstring) : jsstring :=
  match fuel with
  | O => []
  | S fuel' =>
      match cur with
      | c :: cur' => c :: cycle fuel' fill cur'
      | [] =>
          match fill with
          | c :: cur' => c :: cycle fuel' fill cur'
          | [] => []
          end
      end
  end.

(** [s.padStart(target, fill)]. *)
Definition padStart (target : nat) (fill s : jsstring) : jsstring :=
  if (target <=? length s)%nat then s
  else cycle (target - length s) fill fill ++ s.

(** [parts.join] with the empty string as separator. *)
Definition join_empty (parts : list jsstring) : jsstring := concat parts.

End Js.

Import Js.

(** ** Regular expressions

    A backtracking matcher in continuation-passing style, after the
    language specification's pattern semantics, for the constructs the
    three patterns of the source use. *)

Module RegExp.

Inductive node : Type :=
| Lit (c : code_unit)                     (* a pattern character *)
| Dot                                     (* [.] : no line terminator *)
| WordChar                                (* [\w] *)
| LineStart                               (* [^] under the m flag *)
| LineEnd                                 (* [$] under the m flag *)
| Empty
| Cat (r1 r2 : node)
| Repeat (min : nat) (greedy : bool) (r : node)   (* [r*], [r+], [r*?] *)
| Group (n : nat) (r : node).             (* capturing group number n *)

(** A match state: the input split at the current index, and the
    captures so far. [before] is reversed: its head is the code unit at
    index - 1. *)
Record state : Type := {
  before : jsstring;
  after : jsstring;
  captures : list (nat * jsstring)
}.

Definition cont := state -> option state.
Definition matcher := state -> cont -> option state.

Definition advance (x : state) : option state :=
  match after x with
  | [] => None
  | c :: t => Some {| before := c :: before x; after := t; captures := captures x |}
  end.

Definition char_matcher (p : code_unit -> bool) : matcher :=
  fun x k =>
    match after x with
    | [] => None
    | c :: t =>
        if p c
        then k {| before := c :: before x; after := t; captures := captures x |}
        else None
    end.

(** RepeatMatcher: [min] mandatory iterations, then as many (greedy) or
    as few (lazy) as the continuation allows; an iteration that consumes
    nothing once [min] is reached is rejected. *)
Fixpoint repeat_matcher (m : matcher) (fuel min : nat) (greedy : bool)
  (x : state) (k : cont) {struct fuel} : option state :=
  match fuel with
  | O => None
  | S fuel' =>
      let d := fun y =>
        if (min =? 0)%nat && (length (after y) =? length (after x))%nat
        then None
        else repeat_matcher m fuel' (pred min) greedy y k in
      match min with
      | S _ => m x d
      | O =>
          if greedy
          then match m x d with Some z => Some z | None => k x end
          else match k x with Some z => Some z | None => m x d end
      end
  end.

Fixpoint compile (r : node) : matcher :=
  match r with
  | Lit c => char_matcher (fun a => (a =? c)%N)
  | Dot => char_matcher (fun a => negb (is_line_terminator a))
  | WordChar => char_matcher is_word_char
  | LineStart =>
      fun x k =>
        match before x with
        | [] => k x
        | c :: _ => if is_line_terminator c then k x else None
        end
  | LineEnd =>
      fun x k =>
        match after x with
        | [] => k x
        | c :: _ => if is_line_terminator c then k x else None
        end
  | Empty => fun x k => k x
  | Cat r1 r2 => fun x k => compile r1 x (fun y => compile r2 y k)
  | Repeat min greedy r1 =>
      fun x k =>
        repeat_matcher (compile r1) (S (min + length (after x))) min greedy x k
  | Group n r1 =>
      fun x k =>
        compile r1 x (fun y =>
          k {| before := before y; after := after y;
               captures :=
                 (n, firstn (length (after x) - length (after y)) (after x))
                 :: captures y |})
  end.

(** The pattern matching a literal string. *)
Fixpoint lit (s : jsstring) : node :=
  match s with
  | [] => Empty
  | c :: s' => Cat (Lit c) (lit s')
  end.

(** One attempt at the current index, with no capture set. *)
Definition match_here (r : node) (x : state) : option state :=
  compile r {| before := before x; after := after x; captures := [] |} Some.

(** RegExpBuiltinExec: the leftmost index, from the current one on, at
    which the pattern matches; the state where the match starts and the
    state where it ends. *)
Fixpoint exec (r : node) (fuel : nat) (x : state) : option (state * state) :=
  match match_here r x with
  | Some y => Some (x, y)
  | None =>
      match fuel with
      | O => None
      | S fuel' =>
          match advance x with
          | Some x' => exec r fuel' x'
          | None => None
          end
      end
  end.

Definition start (s : jsstring) : state :=
  {| before := []; after := s; captures := [] |}.

(** [r.test(s)]. *)
Definition test (r : node) (s : jsstring) : bool :=
  match exec r (length s) (start s) with
  | Some _ => true
  | None => false
  end.

(** A replacement template: literal text and [$n] references. *)
Inductive item : Type :=
| Text (s : jsstring)
| Ref (n : nat).

Fixpoint lookup (n : nat) (caps : list (nat * jsstring)) : jsstring :=
  match caps with
  | [] => []
  | (i, s) :: caps' => if (i =? n)%nat then s else lookup n caps'
  end.

(** GetSubstitution. *)
Fixpoint substitution (tmpl : list item) (caps : list (nat * jsstring)) : jsstring :=
  match tmpl with
  | [] => []
  | Text s :: tmpl' => s ++ substitution tmpl' caps
  | Ref n :: tmpl' => lookup n caps ++ substitution tmpl' caps
  end.

(** [s.replace(r, tmpl)] from the current index on. Without the g flag
    the first match is replaced; with it every match is, the search
    resuming where the previous match ended (one code unit further after
    an empty match). Text outside the matches is kept. *)
Fixpoint replace_from (r : node) (global : bool) (tmpl : list item)
  (fuel : nat) (x : state) : jsstring :=
  match match_here r x with
  | Some y =>
      substitution tmpl (captures y) ++
      (if global then
         match fuel with
         | O => after y
         | S fuel' =>
             if (length (after y) <? length (after x))%nat
             then replace_from r global tmpl fuel' y
             else match after x with
                  | [] => []
                  | c :: t =>
                      c :: replace_from r global tmpl fuel'
                             {| before := c :: before x; after := t; captures := [] |}
                  end
         end
       else after y)
  | None =>
      match after x with
      | [] => []
      | c :: t =>
          match fuel with
          | O => c :: t
          | S fuel' =>
              c :: replace_from r global tmpl fuel'
                     {| before := c :: before x; after := t; captures := [] |}
          end
      end
  end.

Definition replace (r : node) (global : bool) (tmpl : list item) (s : jsstring) : jsstring :=
  replace_from r global tmpl (length s) (start s).

(** Where a run of word characters ends: at the end of the input or
    before another kind of character. *)
Definition stops_word (rest : jsstring) : Prop :=
  match rest with
  | [] => True
  | c :: _ => is_word_char c = false
  end.

End RegExp.

(** ** The host environment and the class *)

Module CrossOriginStorage.

Import RegExp.

(** What a JavaScript operation can throw, or a promise reject with. *)
Inductive exn : Type :=
| ReferenceError (what : string)
| TypeError (what : string)
| DOMException (name : string).

Inductive completion (A : Type) : Type :=
| Normal (a : A)
| Throw (e : exn).

Arguments Throw {A} e.

Definition Blob := list Byte.byte.

(** The hash object handed to the storage: [{ algorithm, value }]. *)
Record ContentHash : Type := {
  algorithm : jsstring;
  value : jsstring
}.

Definition Handle := N.
Definition Writable := N.

(** The global [navigator]: not defined, defined without the
    [crossOriginStorage] property, or defined with it. *)
Inductive Navigator : Type :=
| NavigatorUndefined
| NavigatorWithout
| NavigatorWith.

(** What [fetch] resolves to: the status, and the outcome of [text()]. *)
Record FetchResponse : Type := {
  status : N;
  text : completion jsstring
}.

(** The [response] argument of [put]: the outcome of [response.blob()]. *)
Record Response : Type := {
  blob : completion Blob
}.

(** The calls that leave the class: the network and the storage. *)
Inductive Event : Type :=
| Fetch (url : jsstring)
| RequestFileHandles (hashes : list ContentHash) (create : bool)
| GetFile (h : Handle)
| CreateWritable (h : Handle)
| Write (w : Writable) (data : Blob)
| Close (w : Writable).

(** The host: the globals the class reads ([navigator], [fetch],
    [crypto.subtle.digest]) and the storage behind
    [navigator.crossOriginStorage], a state machine over [B] of which the
    class knows nothing. Every call may reject. *)
Record Host (B : Type) : Type := {
  navigator : Navigator;
  fetch : jsstring -> completion FetchResponse;
  digest : jsstring -> list Byte.byte -> list Byte.byte;
  requestFileHandles : list ContentHash -> bool -> B -> completion (list Handle) * B;
  getFile : Handle -> B -> completion Blob * B;
  createWritable : Handle -> B -> completion Writable * B;
  write : Writable -> Blob -> B -> completion unit * B;
  close : Writable -> B -> completion unit * B
}.

(** The state a call runs in: the storage, and the calls made so far. *)
Record World (B : Type) : Type := {
  backend : B;
  trace : list Event
}.

(** The world after one more call that left the storage as it was. *)
Definition log {B : Type} (w : World B) (e : Event) : World B :=
  {| backend := backend w; trace := trace w ++ [e] |}.

(** An async function: it runs in a world and completes normally or
    abruptly, leaving a world. *)
Definition M (B A : Type) : Type := World B -> completion A * World B.

Definition ret {B A : Type} (a : A) : M B A := fun w => (Normal a, w).

Definition throw {B A : Type} (e : exn) : M B A := fun w => (Throw e, w).

Definition bind {B A C : Type} (m : M B A) (f : A -> M B C) : M B C :=
  fun w =>
    match m w with
    | (Normal a, w') => f a w'
    | (Throw e, w') => (Throw e, w')
    end.

(** [try { m } catch (err) { handler }]. *)
Definition try_catch {B A : Type} (m : M B A) (handler : exn -> M B A) : M B A :=
  fun w =>
    match m w with
    | (Normal a, w') => (Normal a, w')
    | (Throw e, w') => handler e w'
    end.

(** [await] of a promise that is already settled. *)
Definition await {B A : Type} (c : completion A) : M B A := fun w => (c, w).

Declare Scope js_scope.
Delimit Scope js_scope with js.
Notation "x <- c ;; k" := (bind c (fun x => k))
  (at level 100, c at next level, right associativity) : js_scope.
Open Scope js_scope.

Definition HASH_ALGORITHM : jsstring := js "SHA-256".

(** [/\/resolve\/main\/onnx\//] *)
Definition re_onnx : node := lit (js "/resolve/main/onnx/").

(** [/\/resolve\//] *)
Definition re_resolve : node := lit (js "/resolve/").

(** [/.*?\n^oid sha256:(\w+)\n.*?$/gm] *)
Definition re_oid : node :=
  Cat (Repeat 0 false Dot)
   (Cat (Lit LF)
    (Cat LineStart
     (Cat (lit (js "oid sha256:"))
      (Cat (Group 1 (Repeat 1 true WordChar))
       (Cat (Lit LF)
        (Cat (Repeat 0 false Dot) LineEnd)))))).

(** [s || null] for a string [s]: the empty string is falsy. *)
Definition or_null (s : jsstring) : option jsstring :=
  match s with
  | [] => None
  | _ :: _ => Some s
  end.

Section Class.

Context {B : Type} (host : Host B).

(** A call of a storage method: it is recorded, and steps the storage. *)
Definition call {A : Type} (e : Event) (op : B -> completion A * B) : M B A :=
  fun w =>
    let (r, b) := op (backend w) in
    (r, {| backend := b; trace := trace w ++ [e] |}).

(** [fetch(url)]: recorded; the network is outside the storage. *)
Definition do_fetch (url : jsstring) : M B FetchResponse :=
  fun w => (fetch host url, log w (Fetch url)).

(** Evaluating [navigator.crossOriginStorage.requestFileHandles]. *)
Definition crossOriginStorage : M B unit :=
  match navigator host with
  | NavigatorUndefined => throw (ReferenceError "navigator is not defined")
  | NavigatorWithout => throw (TypeError "navigator.crossOriginStorage is undefined")
  | NavigatorWith => ret tt
  end.

(** A method call on the first element of the array of handles, which is
    [undefined] when the array is empty. *)
Definition on_handle {A : Type} (handle : option Handle) (f : Handle -> M B A) : M B A :=
  match handle with
  | None => throw (TypeError "handle is undefined")
  | Some h => f h
  end.

Definition isAvailable : bool :=
  match navigator host with
  | NavigatorWith => true
  | _ => false
  end.

Definition _getFileHash (url : jsstring) : M B (option jsstring) :=
  if test re_onnx url then
    let rawUrl := replace re_resolve false [Text (js "/raw/")] url in
    response <- do_fetch rawUrl ;;
    text <- await (text response) ;;
    if negb (includes text (js "oid sha256:")) then ret None
    else ret (or_null (replace re_oid true [Ref 1] text))
  else ret None.

Definition _getBlobHash (blob : Blob) : M B ContentHash :=
  let hashAlgorithmIdentifier := js "SHA-256" in
  let arrayBuffer := blob in
  let hashBuffer := digest host hashAlgorithmIdentifier arrayBuffer in
  let hashArray := map Byte.to_N hashBuffer in
  let hashHex :=
    join_empty (map (fun byte => padStart 2 (js "0") (toString16 byte)) hashArray) in
  ret {| algorithm := hashAlgorithmIdentifier; value := hashHex |}.

(** [match]: [None] is [undefined], [Some blob] is [new Response(blob)]. *)
Definition match_ (request : jsstring) : M B (option Blob) :=
  hashValue <- _getFileHash request ;;
  match hashValue with
  | None | Some [] => ret None
  | Some ((_ :: _) as hashValue) =>
      let hash := {| algorithm := HASH_ALGORITHM; value := hashValue |} in
      try_catch
        (_ <- crossOriginStorage ;;
         handles <- call (RequestFileHandles [hash] false)
                      (requestFileHandles host [hash] false) ;;
         let handle := hd_error handles in
         blob <- on_handle handle (fun h => call (GetFile h) (getFile host h)) ;;
         ret (Some blob))
        (fun err => ret None)
  end.

Definition put (request : jsstring) (response : Response) : M B unit :=
  blob <- await (blob response) ;;
  hash <- _getBlobHash blob ;;
  _ <- crossOriginStorage ;;
  handles <- call (RequestFileHandles [hash] true)
               (requestFileHandles host [hash] true) ;;
  let handle := hd_error handles in
  writableStream <- on_handle handle
                      (fun h => call (CreateWritable h) (createWritable host h)) ;;
  _ <- call (Write writableStream blob) (write host writableStream blob) ;;
  call (Close writableStream) (close host writableStream).

End Class.

(** Storage calls among the events; [Fetch] is the only other one. *)
Definition is_backend_call (e : Event) : bool :=
  match e with
  | Fetch _ => false
  | _ => true
  end.

(** The calls that cannot add or change stored content: a request for
    handles without [create], and a read of a handle. *)
Definition is_read_only (e : Event) : bool :=
  match e with
  | Fetch _ => true
  | RequestFileHandles _ create => negb create
  | GetFile _ => true
  | _ => false
  end.

(** The host with another network. *)
Definition with_fetch {B : Type} (host : Host B)
  (net : jsstring -> completion FetchResponse) : Host B :=
  {| navigator := navigator host;
     fetch := net;
     digest := digest host;
     requestFileHandles := requestFileHandles host;
     getFile := getFile host;
     createWritable := createWritable host;
     write := write host;
     close := close host |}.

(** The calls made between the world [w] and a later world [w']. *)
Definition events_since {B : Type} (w w' : World B) : list Event :=
  skipn (length (trace w)) (trace w').

(** The companion location [_getFileHash] fetches for [url]. *)
Definition companion (url : jsstring) : jsstring :=
  replace re_resolve false [Text (js "/raw/")] url.

(** A text with no line terminator in it. *)
Definition one_line (s : jsstring) : bool :=
  forallb (fun a => negb (is_line_terminator a)) s.

(** A non-empty text of [\w] characters. *)
Definition is_word (s : jsstring) : bool :=
  negb (length s =? 0)%nat && forallb is_word_char s.

(** The digits of the lowercase hexadecimal notation. *)
Definition hex_alphabet : jsstring := js "0123456789abcdef".

(** A byte as the specification words it: exactly two lowercase
    hexadecimal digits, the high one first. *)
Definition two_hex_digits (b : Byte.byte) : jsstring :=
  [nth (N.to_nat (Byte.to_N b / 16)) hex_alphabet 0%N;
   nth (N.to_nat (Byte.to_N b mod 16)) hex_alphabet 0%N].

Definition is_lower_hex (c : code_unit) : bool :=
  ((48 <=? c) && (c <=? 57))%N || ((97 <=? c) && (c <=? 102))%N.

End CrossOriginStorage.

(** ** A storage to run the class on

    An in-memory storage and a few networks, the hosts of the concrete
    runs below. The properties of the class are proved for every host. *)

Module MemoryStorage.

Import CrossOriginStorage.

(** The stored files in creation order. A handle, and the writable
    opened on it, is the index of its file. *)
Definition store : Type := list (ContentHash * Blob).

Fixpoint jsstring_eqb (a b : jsstring) : bool :=
  match a, b with
  | [], [] => true
  | x :: a', y :: b' => (x =? y)%N && jsstring_eqb a' b'
  | _, _ => false
  end.

Definition hash_eqb (h1 h2 : ContentHash) : bool :=
  jsstring_eqb (algorithm h1) (algorithm h2) && jsstring_eqb (value h1) (value h2).

(** The content stored under a hash, if any. *)
Fixpoint contents (b : store) (h : ContentHash) : option Blob :=
  match b with
  | [] => None
  | (h', data) :: b' => if hash_eqb h h' then Some data else contents b' h
  end.

Fixpoint index_of (h : ContentHash) (b : store) (i : N) : option Handle :=
  match b with
  | [] => None
  | (h', _) :: b' => if hash_eqb h h' then Some i else index_of h b' (N.succ i)
  end.

(** A handle per hash; a hash with no file gets an empty one under
    [create], and is refused without it. *)
Fixpoint request (hashes : list ContentHash) (create : bool) (b : store)
  : completion (list Handle) * store :=
  match hashes with
  | [] => (Normal [], b)
  | h :: hs =>
      match index_of h b 0 with
      | Some i =>
          match request hs create b with
          | (Normal l, b') => (Normal (i :: l), b')
          | (Throw e, b') => (Throw e, b')
          end
      | None =>
          if create then
            match request hs create (b ++ [(h, [])]) with
            | (Normal l, b') => (Normal (N.of_nat (length b) :: l), b')
            | (Throw e, b') => (Throw e, b')
            end
          else (Throw (DOMException "NotFoundError"), b)
      end
  end.

Definition read (h : Handle) (b : store) : completion Blob * store :=
  match nth_error b (N.to_nat h) with
  | Some (_, data) => (Normal data, b)
  | None => (Throw (DOMException "NotFoundError"), b)
  end.

Definition open (h : Handle) (b : store) : completion Writable * store :=
  match nth_error b (N.to_nat h) with
  | Some _ => (Normal h, b)
  | None => (Throw (DOMException "NotFoundError"), b)
  end.

Fixpoint overwrite (i : nat) (data : Blob) (b : store) : store :=
  match b, i with
  | [], _ => []
  | (h, _) :: b', O => (h, data) :: b'
  | f :: b', S i' => f :: overwrite i' data b'
  end.

Definition store_write (w : Writable) (data : Blob) (b : store) : completion unit * store :=
  (Normal tt, overwrite (N.to_nat w) data b).

Definition store_close (w : Writable) (b : store) : completion unit * store :=
  (Normal tt, b).

(** A two-byte checksum standing for [crypto.subtle.digest] in the
    concrete runs: the sum of the bytes and their number, modulo 256. *)
Definition byte_of (n : N) : Byte.byte :=
  match Byte.of_N (n mod 256) with
  | Some b => b
  | None => Byte.x00
  end.

Definition checksum (alg : jsstring) (data : list Byte.byte) : list Byte.byte :=
  [byte_of (fold_right (fun b acc => (Byte.to_N b + acc)%N) 0%N data);
   byte_of (N.of_nat (length data))].

Definition host (nav : Navigator) (net : jsstring -> completion FetchResponse)
  : Host store :=
  {| navigator := nav;
     fetch := net;
     digest := checksum;
     requestFileHandles := request;
     getFile := read;
     createWritable := open;
     write := store_write;
     close := store_close |}.

(** The same host with a disk that refuses every write. *)
Definition host_disk_full (net : jsstring -> completion FetchResponse) : Host store :=
  {| navigator := NavigatorWith;
     fetch := net;
     digest := checksum;
     requestFileHandles := request;
     getFile := read;
     createWritable := open;
     write := fun _ _ b => (Throw (DOMException "QuotaExceededError"), b);
     close := store_close |}.

(** A network that is down: every [fetch] rejects. *)
Definition offline (url : jsstring) : completion FetchResponse :=
  Throw (TypeError "Failed to fetch").

(** A network that serves one text, with status 200, at every URL. *)
Definition serving (body : jsstring) (url : jsstring) : completion FetchResponse :=
  Normal {| status := 200; text := Normal body |}.

Definition empty_world : World store := {| backend := []; trace := [] |}.

Definition model_url : jsstring :=
  js "https://huggingface.co/openai/whisper-large-v3/resolve/main/onnx/model.onnx".

Definition config_url : jsstring :=
  js "https://huggingface.co/openai/whisper-large-v3/resolve/main/config.json".

(** A pointer file as the hub serves it: three lines, each ended by a
    line feed. *)
Definition pointer_file (oid : string) : jsstring :=
  js "version https://git-lfs.github.com/spec/v1" ++ [LF] ++
  js "oid sha256:" ++ js oid ++ [LF] ++
  js "size 12345" ++ [LF].

(** The same three lines with no line feed after the last. *)
Definition pointer_unterminated (oid : string) : jsstring :=
  js "version https://git-lfs.github.com/spec/v1" ++ [LF] ++
  js "oid sha256:" ++ js oid ++ [LF] ++
  js "size 12345".

Definition payload : Blob := [Byte.x01; Byte.x02; Byte.xff].

End MemoryStorage.

(** ** Notions used to state further properties *)

Module Auxiliary.

Import CrossOriginStorage.

(** Where a line ends: at the end of the input or before a line
    terminator. *)
Definition at_line_end (rest : jsstring) : Prop :=
  match rest with
  | [] => True
  | a :: _ => is_line_terminator a = true
  end.

(** [s] occurs in [a ++ s ++ b] right after [a], and at no earlier index. *)
Definition first_at (a s b : jsstring) : Prop :=
  forall p1 c p2, a = p1 ++ c :: p2 -> startsWith (c :: p2 ++ s ++ b) s = false.

(** The value of a hexadecimal digit, and the bytes a string of pairs of
    digits stands for: the inverse of the encoding of [_getBlobHash]. *)
Definition unhex_digit (c : code_unit) : N :=
  (if c <? 58 then c - 48 else c - 87)%N.

Definition byte_of_two_hex (hi lo : code_unit) : option Byte.byte :=
  Byte.of_N (16 * unhex_digit hi + unhex_digit lo).

Fixpoint bytes_of_hex (s : jsstring) : list Byte.byte :=
  match s with
  | hi :: lo :: s' =>
      match byte_of_two_hex hi lo with
      | Some b => b :: bytes_of_hex s'
      | None => []
      end
  | _ => []
  end.

(** The calls [put] can make, each tied to what the storage returned to
    the call before it: the request is for the one hash [h], with
    [create]; [createWritable] is called on the first handle that request
    returned; [write] writes [data] to the stream [createWritable]
    returned for that handle; [close] closes that stream after its
    [write] succeeded. [put] makes no [fetch] and reads no handle. *)
Definition put_call_ok {B : Type} (host : Host B) (w : World B)
  (data : Blob) (h : ContentHash) (e : Event) : Prop :=
  match e with
  | Fetch _ => False
  | GetFile _ => False
  | RequestFileHandles hashes create => hashes = [h] /\ create = true
  | CreateWritable handle =>
      exists rest b1,
        requestFileHandles host [h] true (backend w) = (Normal (handle :: rest), b1)
  | Write ws written =>
      written = data /\
      exists handle rest b1 b2,
        requestFileHandles host [h] true (backend w) = (Normal (handle :: rest), b1) /\
        createWritable host handle b1 = (Normal ws, b2)
  | Close ws =>
      exists handle rest b1 b2 b3,
        requestFileHandles host [h] true (backend w) = (Normal (handle :: rest), b1) /\
        createWritable host handle b1 = (Normal ws, b2) /\
        write host ws data b2 = (Normal tt, b3)
  end.

End Auxiliary.

(** ** Facts about the matcher *)

Module RegExpFacts.

Import RegExp CrossOriginStorage.

(** A literal pattern consumes itself. *)
Lemma compile_lit : forall s rest bef caps k,
  compile (lit s) {| before := bef; after := s ++ rest; captures := caps |} k
  = k {| before := rev s ++ bef; after := rest; captures := caps |}.
Proof.
  induction s as [|c s IH]; intros rest bef caps k; simpl.
  - reflexivity.
  - unfold char_matcher; simpl. rewrite N.eqb_refl, IH, <- app_assoc. reflexivity.
Qed.

(** At any state, a literal pattern matches exactly when the rest of the
    input starts with it. *)
Lemma compile_lit_startsWith : forall s x k,
  compile (lit s) x k =
  if startsWith (after x) s
  then k {| before := rev s ++ before x; after := skipn (length s) (after x);
            captures := captures x |}
  else None.
Proof.
  induction s as [|c s IH]; intros [bef aft caps] k; simpl.
  - reflexivity.
  - unfold char_matcher; simpl. destruct aft as [|a aft]; [reflexivity|].
    destruct (N.eqb_spec a c) as [->|Hne]; simpl; [|reflexivity].
    rewrite IH; simpl. rewrite <- app_assoc. reflexivity.
Qed.

Lemma exec_lit_includes : forall s t bef,
  (match exec (lit s) (length t) {| before := bef; after := t; captures := [] |} with
   | Some _ => true
   | None => false
   end) = includes t s.
Proof.
  intros s; induction t as [|a t IH]; intros bef.
  - simpl. unfold match_here. rewrite compile_lit_startsWith; simpl.
    destruct (startsWith [] s); reflexivity.
  - cbn [length exec]. unfold match_here at 1. rewrite compile_lit_startsWith.
    cbn [after before captures includes].
    destruct (startsWith (a :: t) s); [reflexivity|].
    cbn [advance after before captures orb]. apply IH.
Qed.

(** [test] of a literal pattern is [includes]: a location is eligible
    exactly when it contains [/resolve/main/onnx/]. *)
Lemma test_lit : forall s t, test (lit s) t = includes t s.
Proof. intros; unfold test, start; apply exec_lit_includes. Qed.

(** The lazy [.*?] stops at the first index where the rest of the
    pattern matches, and walks over no line terminator to get there. *)
Lemma lazy_dot_skips : forall pre rest bef caps fuel k z,
  length pre < fuel ->
  Forall (fun c => is_line_terminator c = false) pre ->
  (forall p1 c p2, pre = p1 ++ c :: p2 ->
     k {| before := rev p1 ++ bef; after := c :: p2 ++ rest; captures := caps |} = None) ->
  k {| before := rev pre ++ bef; after := rest; captures := caps |} = Some z ->
  repeat_matcher (compile Dot) fuel 0 false
    {| before := bef; after := pre ++ rest; captures := caps |} k = Some z.
Proof.
  induction pre as [|c pre IH]; intros rest bef caps fuel k z Hf Hpre Hk Hz;
    (destruct fuel as [|fuel]; [simpl in Hf; lia|]).
  - simpl in *. rewrite Hz. reflexivity.
  - cbn [repeat_matcher app]. pose proof (Hk [] c pre eq_refl) as Hk0.
    cbn [rev app] in Hk0. rewrite Hk0.
    inversion Hpre as [|? ? Hc Hpre']; subst.
    cbn [compile]. unfold char_matcher. cbn [after before captures].
    rewrite Hc. cbn [negb length Nat.eqb andb pred].
    replace (length (pre ++ rest) =? S (length (pre ++ rest)))%nat with false
      by (symmetry; apply Nat.eqb_neq; lia).
    apply IH.
    + simpl in Hf; lia.
    + assumption.
    + intros p1 c' p2 ->.
      specialize (Hk (c :: p1) c' p2 eq_refl). simpl in Hk.
      rewrite <- app_assoc in Hk. exact Hk.
    + simpl in Hz. rewrite <- app_assoc in Hz. exact Hz.
Qed.

(** The greedy [\w*] takes the whole run when the rest of the pattern
    matches after it. *)
Lemma greedy_word_star : forall d rest bef caps fuel k z,
  length d < fuel ->
  Forall (fun c => is_word_char c = true) d ->
  stops_word rest ->
  k {| before := rev d ++ bef; after := rest; captures := caps |} = Some z ->
  repeat_matcher (compile WordChar) fuel 0 true
    {| before := bef; after := d ++ rest; captures := caps |} k = Some z.
Proof.
  induction d as [|c d IH]; intros rest bef caps fuel k z Hf Hd Hrest Hz;
    (destruct fuel as [|fuel]; [simpl in Hf; lia|]).
  - cbn [repeat_matcher app compile]. unfold char_matcher. cbn [after].
    simpl in Hz. destruct rest as [|c rest]; [rewrite Hz; reflexivity|].
    simpl in Hrest. rewrite Hrest, Hz. reflexivity.
  - cbn [repeat_matcher app compile]. unfold char_matcher. cbn [after before captures].
    inversion Hd as [|? ? Hc Hd']; subst. rewrite Hc.
    cbn [length Nat.eqb andb pred].
    replace (length (d ++ rest) =? S (length (d ++ rest)))%nat with false
      by (symmetry; apply Nat.eqb_neq; lia).
    erewrite IH; [reflexivity | simpl in Hf; lia | assumption | assumption |].
    simpl in Hz. rewrite <- app_assoc in Hz. exact Hz.
Qed.

Lemma greedy_word_plus : forall c d rest bef caps k z,
  Forall (fun c => is_word_char c = true) (c :: d) ->
  stops_word rest ->
  k {| before := rev (c :: d) ++ bef; after := rest; captures := caps |} = Some z ->
  compile (Repeat 1 true WordChar)
    {| before := bef; after := (c :: d) ++ rest; captures := caps |} k = Some z.
Proof.
  intros c d rest bef caps k z Hd Hrest Hz.
  cbn [compile after]. cbn [repeat_matcher]. unfold char_matcher at 1.
  cbn [after before captures app].
  inversion Hd as [|? ? Hc Hd']; subst. rewrite Hc.
  cbn [Nat.eqb andb pred].
  apply greedy_word_star; try assumption.
  - simpl. rewrite length_app. lia.
  - simpl in Hz. rewrite <- app_assoc in Hz. exact Hz.
Qed.

Lemma firstn_consumed : forall (a b : jsstring),
  firstn (length (a ++ b) - length b) (a ++ b) = a.
Proof.
  intros a b. rewrite length_app.
  replace (length a + length b - length b) with (length a + 0) by lia.
  rewrite firstn_app_2. simpl. apply app_nil_r.
Qed.

Lemma not_terminator_not_LF : forall c,
  is_line_terminator c = false -> (c =? LF)%N = false.
Proof.
  unfold is_line_terminator, LF; intros c H.
  destruct (c =? 10)%N; [discriminate|reflexivity].
Qed.

(** The pointer pattern on a text of three lines, the second one the
    [oid] line: it matches the whole text and captures the digest. *)
Lemma match_oid_line : forall pre c d post bef,
  Forall (fun a => is_line_terminator a = false) pre ->
  Forall (fun a => is_word_char a = true) (c :: d) ->
  Forall (fun a => is_line_terminator a = false) post ->
  match_here re_oid
    {| before := bef;
       after := pre ++ LF :: js "oid sha256:" ++ (c :: d) ++ LF :: post;
       captures := [] |}
  = Some {| before := rev post ++ LF :: rev (c :: d) ++ rev (js "oid sha256:")
                        ++ LF :: rev pre ++ bef;
            after := [];
            captures := [(1, c :: d)] |}.
Proof.
  intros pre c d post bef Hpre Hd Hpost.
  unfold match_here, re_oid. cbn [before after captures].
  cbn [compile]. cbn [after].
  apply lazy_dot_skips; try assumption.
  - cbn [Nat.add]. rewrite length_app. simpl. lia.
  - intros p1 a p2 ->. unfold char_matcher. cbn [after].
    apply Forall_app in Hpre as [_ Hpre]. inversion Hpre as [|? ? Ha _]; subst.
    rewrite (not_terminator_not_LF _ Ha). reflexivity.
  - unfold char_matcher at 1. cbn [after before captures].
    rewrite N.eqb_refl. cbn [before].
    change (is_line_terminator LF) with true. cbv iota.
    rewrite compile_lit.
    apply greedy_word_plus; try assumption.
    + simpl. reflexivity.
    + cbn [before after captures].
      rewrite firstn_consumed.
      unfold char_matcher at 1. cbn [after before captures].
      rewrite N.eqb_refl.
      rewrite <- (app_nil_r post) at 1 2.
      apply lazy_dot_skips; try assumption.
      * simpl. rewrite length_app. simpl. lia.
      * intros p1 a p2 ->. cbn [after].
        apply Forall_app in Hpost as [_ Hpost]. inversion Hpost as [|? ? Ha _]; subst.
        rewrite Ha. reflexivity.
      * cbn [after]. reflexivity.
Qed.

Lemma match_oid_at_end : forall bef,
  match_here re_oid {| before := bef; after := []; captures := [] |} = None.
Proof. reflexivity. Qed.

(** On such a text the replacement leaves the digest alone. *)
Lemma replace_oid_line : forall pre c d post,
  Forall (fun a => is_line_terminator a = false) pre ->
  Forall (fun a => is_word_char a = true) (c :: d) ->
  Forall (fun a => is_line_terminator a = false) post ->
  replace re_oid true [Ref 1] (pre ++ LF :: js "oid sha256:" ++ (c :: d) ++ LF :: post)
  = c :: d.
Proof.
  intros pre c d post Hpre Hd Hpost.
  unfold replace, start.
  destruct (length (pre ++ LF :: js "oid sha256:" ++ (c :: d) ++ LF :: post))
    as [|fuel] eqn:Hlen.
  - rewrite length_app in Hlen. simpl in Hlen. lia.
  - cbn [replace_from]. rewrite match_oid_line by assumption.
    cbn [captures after substitution lookup Nat.eqb length].
    rewrite length_app. cbn [length].
    replace (0 <? length pre + S _)%nat with true by (symmetry; apply Nat.ltb_lt; lia).
    destruct fuel; cbn [replace_from]; rewrite ?app_nil_r; try reflexivity.
    all: rewrite ?match_oid_at_end; cbn [after]; rewrite ?app_nil_r; reflexivity.
Qed.

(** A text that contains a string includes it. *)
Lemma includes_infix : forall (a s b : jsstring), includes (a ++ s ++ b) s = true.
Proof.
  assert (P : forall s b, startsWith (s ++ b) s = true).
  { induction s as [|c s IH]; intros b; simpl; [reflexivity|].
    rewrite N.eqb_refl. apply IH. }
  induction a as [|c a IH]; intros s b.
  - simpl. destruct (s ++ b) eqn:E; cbn [includes]; rewrite <- ?E, P; reflexivity.
  - cbn [app includes]. rewrite IH. apply orb_true_r.
Qed.

End RegExpFacts.

(** ** Properties of the class *)

Import RegExp CrossOriginStorage MemoryStorage RegExpFacts.

Unset Implicit Arguments.

(** Unfolds the operations of the monad. *)
Ltac unfold_js :=
  unfold bind, ret, throw, try_catch, await, call, do_fetch, on_handle,
    crossOriginStorage, isAvailable in *.

(** Every event of a list is one of the calls [put] makes. *)
Ltac put_events :=
  repeat (apply Forall_cons; [solve [eauto 10]|]); apply Forall_nil.

Section Resolver.
Context {B : Type} (host : Host B).

Lemma getFileHash_skips : forall url w,
  test re_onnx url = false -> _getFileHash host url w = (Normal None, w).
Proof. intros url w H. unfold _getFileHash. rewrite H. reflexivity. Qed.

Lemma getFileHash_fetches : forall url w,
  test re_onnx url = true ->
  _getFileHash host url w =
  match fetch host (companion url) with
  | Throw e => (Throw e, log w (Fetch (companion url)))
  | Normal resp =>
      match text resp with
      | Throw e => (Throw e, log w (Fetch (companion url)))
      | Normal body =>
          (Normal (if includes body (js "oid sha256:")
                   then or_null (replace re_oid true [Ref 1] body)
                   else None),
           log w (Fetch (companion url)))
      end
  end.
Proof.
  intros url w H. unfold _getFileHash. rewrite H. unfold_js. fold (companion url).
  destruct (fetch host (companion url)) as [resp|e]; [|reflexivity].
  destruct (text resp) as [body|e]; [|reflexivity].
  destruct (includes body (js "oid sha256:")); reflexivity.
Qed.

Lemma getFileHash_trace : forall url w,
  backend (snd (_getFileHash host url w)) = backend w /\
  exists evs, trace (snd (_getFileHash host url w)) = trace w ++ evs /\
              Forall (fun e => is_backend_call e = false) evs.
Proof.
  intros url w. destruct (test re_onnx url) eqn:H.
  - rewrite (getFileHash_fetches url w H).
    assert (G : backend (log w (Fetch (companion url))) = backend w /\
                exists evs, trace (log w (Fetch (companion url))) = trace w ++ evs /\
                  Forall (fun e => is_backend_call e = false) evs).
    { split; [reflexivity|]. exists [Fetch (companion url)]. split; [reflexivity|].
      constructor; [reflexivity|constructor]. }
    destruct (fetch host (companion url)) as [resp|e]; [|exact G].
    destruct (text resp) as [body|e]; exact G.
  - rewrite (getFileHash_skips url w H). split; [reflexivity|].
    exists []. rewrite app_nil_r. split; [reflexivity|constructor].
Qed.

Lemma match_rethrows : forall url w e w1,
  _getFileHash host url w = (Throw e, w1) -> match_ host url w = (Throw e, w1).
Proof. intros url w e w1 H. unfold match_, bind. rewrite H. reflexivity. Qed.

Lemma match_no_hash : forall url w v w1,
  _getFileHash host url w = (Normal v, w1) ->
  v = None \/ v = Some [] ->
  match_ host url w = (Normal None, w1).
Proof.
  intros url w v w1 H [-> | ->]; unfold match_, bind; rewrite H; reflexivity.
Qed.

Lemma match_unavailable : forall url w v w1,
  _getFileHash host url w = (Normal v, w1) ->
  isAvailable host = false ->
  match_ host url w = (Normal None, w1).
Proof.
  intros url w v w1 H Hnav. unfold match_, bind. rewrite H.
  destruct v as [[|c s]|]; try reflexivity.
  unfold isAvailable in Hnav. cbv [try_catch bind crossOriginStorage].
  destruct (navigator host); try discriminate; reflexivity.
Qed.

Lemma match_lookup : forall url w c s w1,
  _getFileHash host url w = (Normal (Some (c :: s)), w1) ->
  navigator host = NavigatorWith ->
  match_ host url w =
  let hash := {| algorithm := HASH_ALGORITHM; value := c :: s |} in
  match requestFileHandles host [hash] false (backend w1) with
  | (Throw e, b1) =>
      (Normal None,
       {| backend := b1; trace := trace w1 ++ [RequestFileHandles [hash] false] |})
  | (Normal [], b1) =>
      (Normal None,
       {| backend := b1; trace := trace w1 ++ [RequestFileHandles [hash] false] |})
  | (Normal (h :: _), b1) =>
      match getFile host h b1 with
      | (Normal data, b2) =>
          (Normal (Some data),
           {| backend := b2;
              trace := (trace w1 ++ [RequestFileHandles [hash] false]) ++ [GetFile h] |})
      | (Throw e, b2) =>
          (Normal None,
           {| backend := b2;
              trace := (trace w1 ++ [RequestFileHandles [hash] false]) ++ [GetFile h] |})
      end
  end.
Proof.
  intros url w c s w1 H Hnav. unfold match_, bind. rewrite H.
  cbv [try_catch bind crossOriginStorage]. rewrite Hnav.
  cbv [ret call on_handle throw]. cbv zeta.
  destruct (requestFileHandles host _ false (backend w1)) as [[[|h hs]|e] b1];
    cbn [hd_error backend trace]; try reflexivity.
  destruct (getFile host h b1) as [[data|e] b2]; reflexivity.
Qed.

End Resolver.

Section ResolverClaims.
Context {B : Type} (host : Host B).

(** C7. For a location that does not match the eligible pattern
    [/resolve/main/onnx/], [_getFileHash] returns null at once: the world
    is left exactly as it was, so no [fetch] (and no other call) is made. *)
Theorem getFileHash_other_location_null : forall (url : jsstring) (w : World B),
  test re_onnx url = false ->
  _getFileHash host url w = (Normal None, w).
Proof. intros url w H. apply (getFileHash_skips host url w H). Qed.

(** C1, amended. For an eligible location: when the companion fetch
    resolves, whatever its status, and its text does not contain
    [oid sha256:], [_getFileHash] returns null and throws nothing; when
    the fetch rejects, or reading the text of its response rejects,
    [_getFileHash] rejects with that very error, and so does [match],
    which awaits it outside its [try] block. *)
Theorem getFileHash_marker_absent_or_rejected : forall (url : jsstring) (w : World B),
  test re_onnx url = true ->
  (forall resp body,
     fetch host (companion url) = Normal resp ->
     text resp = Normal body ->
     includes body (js "oid sha256:") = false ->
     _getFileHash host url w = (Normal None, log w (Fetch (companion url)))) /\
  (forall e,
     fetch host (companion url) = Throw e ->
     _getFileHash host url w = (Throw e, log w (Fetch (companion url))) /\
     match_ host url w = (Throw e, log w (Fetch (companion url)))) /\
  (forall resp e,
     fetch host (companion url) = Normal resp ->
     text resp = Throw e ->
     _getFileHash host url w = (Throw e, log w (Fetch (companion url))) /\
     match_ host url w = (Throw e, log w (Fetch (companion url)))).
Proof.
  intros url w H. pose proof (getFileHash_fetches host url w H) as E.
  split; [|split].
  - intros resp body Hf Ht Hi. rewrite E, Hf, Ht, Hi. reflexivity.
  - intros e Hf.
    assert (G : _getFileHash host url w = (Throw e, log w (Fetch (companion url))))
      by (rewrite E, Hf; reflexivity).
    split; [exact G | apply match_rethrows, G].
  - intros resp e Hf Ht.
    assert (G : _getFileHash host url w = (Throw e, log w (Fetch (companion url))))
      by (rewrite E, Hf, Ht; reflexivity).
    split; [exact G | apply match_rethrows, G].
Qed.

Lemma forallb_Forall : forall (p : code_unit -> bool) (s : jsstring),
  forallb p s = true -> Forall (fun a => p a = true) s.
Proof. intros p s H. apply Forall_forall. apply forallb_forall, H. Qed.

Lemma one_line_Forall : forall s,
  one_line s = true -> Forall (fun a => is_line_terminator a = false) s.
Proof.
  intros s H. apply forallb_Forall in H.
  eapply Forall_impl; [|exact H]. intros a Ha. simpl in Ha.
  destruct (is_line_terminator a); [discriminate|reflexivity].
Qed.

(** C2, amended. For an eligible location whose companion text is
    exactly three lines, the second one [oid sha256:<digest>] with a
    digest of one or more word characters and no line break after the
    third, [_getFileHash] returns the digest as a string, its case
    unchanged. When the storage is available, [match] then asks it for
    [{ algorithm: "SHA-256", value: <digest> }], without [create], right
    after the fetch; when it is not, [match] resolves to undefined
    after the fetch, with no storage call. *)
Theorem getFileHash_three_line_pointer :
  forall (url : jsstring) (w : World B) (resp : FetchResponse)
         (first oid last : jsstring),
  test re_onnx url = true ->
  fetch host (companion url) = Normal resp ->
  text resp = Normal (first ++ [LF] ++ js "oid sha256:" ++ oid ++ [LF] ++ last) ->
  one_line first = true ->
  is_word oid = true ->
  one_line last = true ->
  _getFileHash host url w = (Normal (Some oid), log w (Fetch (companion url))) /\
  (isAvailable host = true ->
   exists evs,
     trace (snd (match_ host url w)) =
     trace w ++ Fetch (companion url)
       :: RequestFileHandles [{| algorithm := js "SHA-256"; value := oid |}] false
       :: evs) /\
  (isAvailable host = false ->
   match_ host url w = (Normal None, log w (Fetch (companion url)))).
Proof.
  intros url w resp first oid last Hurl Hf Ht H1 Hw H2.
  unfold is_word in Hw. apply andb_true_iff in Hw as [Hne Hw].
  destruct oid as [|c d]; [discriminate|].
  apply one_line_Forall in H1, H2. apply forallb_Forall in Hw.
  assert (E : _getFileHash host url w
              = (Normal (Some (c :: d)), log w (Fetch (companion url)))).
  { rewrite (getFileHash_fetches host url w Hurl), Hf, Ht.
    replace (first ++ [LF] ++ js "oid sha256:" ++ (c :: d) ++ [LF] ++ last)
      with ((first ++ [LF]) ++ js "oid sha256:" ++ ((c :: d) ++ [LF] ++ last))
      by (rewrite <- app_assoc; reflexivity).
    rewrite includes_infix.
    replace ((first ++ [LF]) ++ js "oid sha256:" ++ ((c :: d) ++ [LF] ++ last))
      with (first ++ LF :: js "oid sha256:" ++ (c :: d) ++ LF :: last)
      by (rewrite <- app_assoc; reflexivity).
    rewrite replace_oid_line by assumption. reflexivity. }
  split; [exact E|]. split; [|apply (match_unavailable host url w _ _ E)].
  intros Hav.
  assert (Hnav : navigator host = NavigatorWith)
    by (unfold isAvailable in Hav; destruct (navigator host); congruence).
  rewrite (match_lookup host url w c d _ E Hnav). cbv zeta.
  change HASH_ALGORITHM with (js "SHA-256"). cbn [log backend trace].
  destruct (requestFileHandles host _ false (backend w)) as [[[|h hs]|e] b1];
    cbn [snd trace]; rewrite <- ?app_assoc; try (eexists; reflexivity).
  destruct (getFile host h b1) as [[data|e] b2];
    cbn [snd trace]; rewrite <- ?app_assoc; eexists; reflexivity.
Qed.

End ResolverClaims.

Section MatchClaims.
Context {B : Type} (host : Host B).

Lemma events_since_app : forall (w w' : World B) evs,
  trace w' = trace w ++ evs -> events_since w w' = evs.
Proof.
  intros w w' evs H. unfold events_since. rewrite H.
  rewrite skipn_app, skipn_all, Nat.sub_diag. reflexivity.
Qed.

Lemma available_navigator :
  isAvailable host = true -> navigator host = NavigatorWith.
Proof. unfold isAvailable. destruct (navigator host); congruence. Qed.

(** C4. Whenever the hash resolution of [match] completes,
    [match] completes normally too, whatever the storage does; and it
    resolves to a response only if the capability is there, the request
    for handles yields a handle and the read of that handle succeeds. In
    every other case, that is under every failure of the storage, it
    resolves to undefined. The one rejection of [match] is that of its
    hash resolution, which it does not absorb. *)
Theorem match_absorbs_backend_failures :
  forall (request : jsstring) (w : World B),
  (forall (v : option jsstring) (w1 : World B),
     _getFileHash host request w = (Normal v, w1) ->
     exists (r : option Blob) (w2 : World B),
       match_ host request w = (Normal r, w2) /\
       forall data, r = Some data ->
         exists hashValue h rest b1,
           v = Some hashValue /\
           isAvailable host = true /\
           requestFileHandles host
             [{| algorithm := js "SHA-256"; value := hashValue |}] false (backend w1)
           = (Normal (h :: rest), b1) /\
           getFile host h b1 = (Normal data, backend w2)) /\
  (forall (e : exn) (w1 : World B),
     _getFileHash host request w = (Throw e, w1) ->
     match_ host request w = (Throw e, w1)).
Proof.
  intros request w. split; [|intros e w1; apply match_rethrows].
  intros v w1 E.
  destruct (isAvailable host) eqn:Hav.
  - destruct v as [[|c s]|].
    + exists None, w1. split; [apply (match_no_hash host request w _ w1 E); auto|discriminate].
    + rewrite (match_lookup host request w c s w1 E (available_navigator Hav)).
      cbv zeta. change HASH_ALGORITHM with (js "SHA-256").
      destruct (requestFileHandles host _ false (backend w1)) as [[[|h hs]|e] b1] eqn:R;
        try (eexists None, _; split; [reflexivity|discriminate]).
      destruct (getFile host h b1) as [[data|e] b2] eqn:G;
        try (eexists None, _; split; [reflexivity|discriminate]).
      eexists (Some data), _. split; [reflexivity|].
      intros data' [= <-]. exists (c :: s), h, hs, b1. cbn [backend]. auto.
    + exists None, w1. split; [apply (match_no_hash host request w _ w1 E); auto|discriminate].
  - exists None, w1. split; [apply (match_unavailable host request w v w1 E Hav)|discriminate].
Qed.

Lemma put_unavailable : forall request response w,
  isAvailable host = false ->
  exists e, put host request response w = (Throw e, w).
Proof.
  intros request response w Hav. unfold put, _getBlobHash.
  cbv [bind await ret crossOriginStorage throw]. unfold isAvailable in Hav.
  destruct (blob response) as [data|e]; [|eexists; reflexivity].
  destruct (navigator host); try discriminate; eexists; reflexivity.
Qed.

(** C5, amended. When [isAvailable] reports the storage absent, [put]
    fails for every input and leaves the world as it was; [match] calls
    the storage for no input, and resolves to undefined whenever its hash
    resolution completes: its only other outcome is the rejection of the
    hash resolution itself. *)
Theorem unavailable_backend_never_called :
  forall (request : jsstring) (response : Response) (w : World B),
  isAvailable host = false ->
  (exists e, put host request response w = (Throw e, w)) /\
  (exists r w',
     match_ host request w = (r, w') /\
     backend w' = backend w /\
     Forall (fun e => is_backend_call e = false) (events_since w w') /\
     (r = Normal None \/
      exists e, r = Throw e /\ _getFileHash host request w = (Throw e, w'))).
Proof.
  intros request response w Hav. split; [apply put_unavailable, Hav|].
  destruct (getFileHash_trace host request w) as (Hb & evs & Ht & Hevs).
  destruct (_getFileHash host request w) as [[v|e] w1] eqn:E; cbn [snd] in *.
  - exists (Normal None), w1. rewrite (match_unavailable host request w v w1 E Hav).
    rewrite (events_since_app _ _ _ Ht). auto.
  - exists (Throw e), w1. rewrite (match_rethrows host request w e w1 E).
    rewrite (events_since_app _ _ _ Ht). repeat split; eauto.
Qed.

(** C10. [match] asks only for handles without [create] and reads
    them: it opens no writable, writes nothing and closes nothing. So
    whatever can be observed of a storage that those two calls leave
    alone, such as the set of stored (hash, content) pairs, is the same
    after [match] as before, be it a hit, a miss or a failure. *)
Theorem match_leaves_storage_unchanged :
  forall (X : Type) (observe : B -> X) (request : jsstring) (w : World B),
  (forall hashes b, observe (snd (requestFileHandles host hashes false b)) = observe b) ->
  (forall h b, observe (snd (getFile host h b)) = observe b) ->
  observe (backend (snd (match_ host request w))) = observe (backend w) /\
  Forall (fun e => is_read_only e = true)
         (events_since w (snd (match_ host request w))).
Proof.
  intros X observe request w Hreq Hget.
  destruct (getFileHash_trace host request w) as (Hb & evs & Ht & Hevs).
  assert (Hro : Forall (fun e => is_read_only e = true) evs).
  { eapply Forall_impl; [|exact Hevs]. intros [] H; simpl in *; congruence. }
  destruct (_getFileHash host request w) as [[v|e] w1] eqn:E; cbn [snd] in *.
  - destruct (isAvailable host) eqn:Hav.
    + destruct v as [[|c s]|].
      * rewrite (match_no_hash host request w _ w1 E) by auto. cbn [snd].
        rewrite (events_since_app _ _ _ Ht), Hb. auto.
      * rewrite (match_lookup host request w c s w1 E (available_navigator Hav)).
        cbv zeta.
        pose proof (Hreq [{| algorithm := HASH_ALGORITHM; value := c :: s |}] (backend w1))
          as Hreq1.
        destruct (requestFileHandles host _ false (backend w1)) as [[[|h hs]|e] b1];
          cbn [snd] in Hreq1.
        -- cbn [snd backend]. rewrite Hreq1, Hb. split; [reflexivity|].
           erewrite events_since_app; [|cbn [trace]; rewrite Ht, <- app_assoc; reflexivity].
           apply Forall_app. split; [exact Hro|]. repeat constructor.
        -- pose proof (Hget h b1) as Hget1.
           destruct (getFile host h b1) as [[data|e] b2]; cbn [snd] in Hget1;
             cbn [snd backend]; rewrite Hget1, Hreq1, Hb; (split; [reflexivity|]);
             (erewrite events_since_app;
                [|cbn [trace]; rewrite Ht, <- !app_assoc; reflexivity]);
             (apply Forall_app; split; [exact Hro|]); repeat constructor.
        -- cbn [snd backend]. rewrite Hreq1, Hb. split; [reflexivity|].
           erewrite events_since_app; [|cbn [trace]; rewrite Ht, <- app_assoc; reflexivity].
           apply Forall_app. split; [exact Hro|]. repeat constructor.
      * rewrite (match_no_hash host request w _ w1 E) by auto. cbn [snd].
        rewrite (events_since_app _ _ _ Ht), Hb. auto.
    + rewrite (match_unavailable host request w v w1 E Hav). cbn [snd].
      rewrite (events_since_app _ _ _ Ht), Hb. auto.
  - rewrite (match_rethrows host request w e w1 E). cbn [snd].
    rewrite (events_since_app _ _ _ Ht), Hb. auto.
Qed.

End MatchClaims.

Section PutClaims.
Context {B : Type} (host : Host B).

Lemma byte_two_hex_digits : forall b : Byte.byte,
  padStart 2 (js "0") (toString16 (Byte.to_N b)) = two_hex_digits b.
Proof. destruct b; reflexivity. Qed.

Lemma two_hex_digits_lower : forall b : Byte.byte,
  forallb is_lower_hex (two_hex_digits b) = true.
Proof. destruct b; reflexivity. Qed.

Lemma getBlobHash_value : forall data w,
  _getBlobHash host data w =
  (Normal {| algorithm := js "SHA-256";
             value := concat (map two_hex_digits (digest host (js "SHA-256") data)) |},
   w).
Proof.
  intros data w. unfold _getBlobHash, ret, join_empty. rewrite map_map.
  do 4 f_equal. apply map_ext. intros b. apply byte_two_hex_digits.
Qed.

(** C8. [_getBlobHash] returns, for every payload and in every world,
    the hash whose algorithm is ["SHA-256"] and whose value is the digest
    of the payload with each byte written as exactly two lowercase
    hexadecimal digits, the high one first, in byte order. *)
Theorem getBlobHash_lowercase_hex : forall (data : Blob) (w : World B),
  exists h : ContentHash,
    _getBlobHash host data w = (Normal h, w) /\
    algorithm h = js "SHA-256" /\
    value h = concat (map two_hex_digits (digest host (js "SHA-256") data)) /\
    length (value h) = 2 * length (digest host (js "SHA-256") data) /\
    forallb is_lower_hex (value h) = true.
Proof.
  intros data w. eexists. split; [apply getBlobHash_value|]. cbn [algorithm value].
  repeat split.
  - induction (digest host (js "SHA-256") data) as [|b l IH]; [reflexivity|].
    cbn [map concat]. rewrite length_app, IH. cbn [two_hex_digits length]. lia.
  - induction (digest host (js "SHA-256") data) as [|b l IH]; [reflexivity|].
    cbn [map concat]. rewrite forallb_app, IH, two_hex_digits_lower. reflexivity.
Qed.

Lemma put_run : forall request response w data h,
  blob response = Normal data ->
  _getBlobHash host data w = (Normal h, w) ->
  navigator host = NavigatorWith ->
  put host request response w =
  let t1 := trace w ++ [RequestFileHandles [h] true] in
  match requestFileHandles host [h] true (backend w) with
  | (Throw e, b1) => (Throw e, {| backend := b1; trace := t1 |})
  | (Normal [], b1) =>
      (Throw (TypeError "handle is undefined"), {| backend := b1; trace := t1 |})
  | (Normal (handle :: _), b1) =>
      let t2 := t1 ++ [CreateWritable handle] in
      match createWritable host handle b1 with
      | (Throw e, b2) => (Throw e, {| backend := b2; trace := t2 |})
      | (Normal ws, b2) =>
          let t3 := t2 ++ [Write ws data] in
          match write host ws data b2 with
          | (Throw e, b3) => (Throw e, {| backend := b3; trace := t3 |})
          | (Normal _, b3) =>
              let (r, b4) := close host ws b3 in
              (r, {| backend := b4; trace := t3 ++ [Close ws] |})
          end
      end
  end.
Proof.
  intros request response w data h Hblob Hhash Hnav. unfold put.
  cbv [bind await]. rewrite Hblob, Hhash.
  cbv [crossOriginStorage]. rewrite Hnav.
  cbv [ret call on_handle throw]. cbv zeta.
  destruct (requestFileHandles host [h] true (backend w)) as [[[|handle hs]|e] b1];
    cbn [hd_error backend trace]; try reflexivity.
  destruct (createWritable host handle b1) as [[ws|e] b2];
    cbn [backend trace]; try reflexivity.
  destruct (write host ws data b2) as [[[]|e] b3];
    cbn [backend trace]; reflexivity.
Qed.

Lemma put_no_blob : forall request response w e,
  blob response = Throw e -> put host request response w = (Throw e, w).
Proof.
  intros request response w e H. unfold put. cbv [bind await]. rewrite H. reflexivity.
Qed.

Lemma put_trace : forall request response w,
  put host request response w = (fst (put host request response w),
                                 snd (put host request response w)) /\
  forall data h,
    blob response = Normal data ->
    _getBlobHash host data w = (Normal h, w) ->
    exists evs,
      trace (snd (put host request response w)) = trace w ++ evs /\
      Forall (fun e =>
                e = RequestFileHandles [h] true \/
                (exists handle, e = CreateWritable handle) \/
                (exists ws, e = Write ws data) \/
                (exists ws, e = Close ws)) evs.
Proof.
  intros request response w. split; [apply surjective_pairing|].
  intros data h Hblob Hhash.
  destruct (isAvailable host) eqn:Hav.
  - rewrite (put_run request response w data h Hblob Hhash (available_navigator host Hav)).
    cbv zeta.
    destruct (requestFileHandles host [h] true (backend w)) as [[[|handle hs]|e] b1];
      cbn [snd trace];
      try (exists [RequestFileHandles [h] true]; split; [reflexivity|];
           put_events).
    destruct (createWritable host handle b1) as [[ws|e] b2]; cbn [snd trace].
    + destruct (write host ws data b2) as [[[]|e] b3]; cbn [snd trace].
      * destruct (close host ws b3) as [r b4]; cbn [snd trace].
        exists [RequestFileHandles [h] true; CreateWritable handle; Write ws data; Close ws].
        split; [rewrite <- !app_assoc; reflexivity|].
        put_events.
      * exists [RequestFileHandles [h] true; CreateWritable handle; Write ws data].
        split; [rewrite <- !app_assoc; reflexivity|].
        put_events.
    + exists [RequestFileHandles [h] true; CreateWritable handle].
      split; [rewrite <- !app_assoc; reflexivity|].
      put_events.
  - destruct (put_unavailable host request response w Hav) as [e ->]. cbn [snd].
    exists []. rewrite app_nil_r. split; [reflexivity|constructor].
Qed.

(** C3. [put] does not depend on the network: with any other [fetch]
    it runs the same, and it makes no [fetch]. Every call it makes
    follows from the payload read from the response: it asks, with
    [create], for the one hash [_getBlobHash] computes from that payload;
    it opens the first handle the storage returned for that hash; and it
    writes that payload to the stream opened on that handle, and closes
    that stream. *)
Theorem put_stores_under_own_digest :
  forall (request : jsstring) (response : Response) (w : World B),
  (forall net, put (with_fetch host net) request response w
               = put host request response w) /\
  forall e,
    In e (events_since w (snd (put host request response w))) ->
    exists data h,
      blob response = Normal data /\
      _getBlobHash host data w = (Normal h, w) /\
      Auxiliary.put_call_ok host w data h e.
Proof.
  intros request response w. split; [reflexivity|]. intros ev Hin.
  destruct (blob response) as [data|e] eqn:Hblob.
  2:{ rewrite (put_no_blob request response w e Hblob) in Hin. cbn [snd] in Hin.
      rewrite (events_since_app w w [] (eq_sym (app_nil_r _))) in Hin. destruct Hin. }
  destruct (isAvailable host) eqn:Hav.
  2:{ destruct (put_unavailable host request response w Hav) as [e E].
      rewrite E in Hin. cbn [snd] in Hin.
      rewrite (events_since_app w w [] (eq_sym (app_nil_r _))) in Hin. destruct Hin. }
  exists data. eexists. split; [reflexivity|]. split; [apply getBlobHash_value|].
  rewrite (put_run request response w data _ Hblob (getBlobHash_value data w)
             (available_navigator host Hav)) in Hin.
  cbv zeta in Hin.
  destruct (requestFileHandles host _ true (backend w)) as [[[|handle hs]|e] b1] eqn:R;
    cbn [snd] in Hin.
  - erewrite events_since_app in Hin by (cbn [trace]; reflexivity).
    destruct Hin as [<-|[]]. cbn. auto.
  - destruct (createWritable host handle b1) as [[ws|e] b2] eqn:C; cbn [snd] in Hin.
    + destruct (write host ws data b2) as [[[]|e] b3] eqn:W; cbn [snd] in Hin.
      * destruct (close host ws b3) as [r b4]. cbn [snd] in Hin.
        erewrite events_since_app in Hin
          by (cbn [trace]; rewrite <- !app_assoc; reflexivity).
        cbn [app In] in Hin.
        destruct Hin as [<-|[<-|[<-|[<-|[]]]]]; cbn; eauto 10.
      * erewrite events_since_app in Hin
          by (cbn [trace]; rewrite <- !app_assoc; reflexivity).
        cbn [app In] in Hin.
        destruct Hin as [<-|[<-|[<-|[]]]]; cbn; eauto 10.
    + erewrite events_since_app in Hin
        by (cbn [trace]; rewrite <- !app_assoc; reflexivity).
      cbn [app In] in Hin. destruct Hin as [<-|[<-|[]]]; cbn; eauto 10.
  - erewrite events_since_app in Hin by (cbn [trace]; reflexivity).
    destruct Hin as [<-|[]]. cbn. auto.
Qed.

(** C6. A failure of any step of [put] is the outcome of [put]: a
    rejected [response.blob()], an absent storage, a rejected or empty
    request for handles, a rejected [createWritable], [write] or [close].
    [put] completes as [close] does once every earlier step succeeded. *)
Theorem put_propagates_failures :
  forall (request : jsstring) (response : Response) (w : World B),
  (forall e, blob response = Throw e ->
     put host request response w = (Throw e, w)) /\
  (forall data h,
     blob response = Normal data ->
     _getBlobHash host data w = (Normal h, w) ->
     (isAvailable host = false ->
        exists e, put host request response w = (Throw e, w)) /\
     (isAvailable host = true ->
        (forall e b1,
           requestFileHandles host [h] true (backend w) = (Throw e, b1) ->
           fst (put host request response w) = Throw e) /\
        (forall b1,
           requestFileHandles host [h] true (backend w) = (Normal [], b1) ->
           exists e, fst (put host request response w) = Throw e) /\
        (forall handle rest b1,
           requestFileHandles host [h] true (backend w) = (Normal (handle :: rest), b1) ->
           (forall e b2,
              createWritable host handle b1 = (Throw e, b2) ->
              fst (put host request response w) = Throw e) /\
           (forall ws b2,
              createWritable host handle b1 = (Normal ws, b2) ->
              (forall e b3,
                 write host ws data b2 = (Throw e, b3) ->
                 fst (put host request response w) = Throw e) /\
              (forall b3,
                 write host ws data b2 = (Normal tt, b3) ->
                 forall r b4,
                   close host ws b3 = (r, b4) ->
                   fst (put host request response w) = r))))).
Proof.
  intros request response w. split; [intros e; apply put_no_blob|].
  intros data h Hblob Hhash. split; [apply put_unavailable|].
  intros Hav.
  pose proof (put_run request response w data h Hblob Hhash
                (available_navigator host Hav)) as E.
  cbv zeta in E. split; [|split].
  - intros e b1 R. rewrite E, R. reflexivity.
  - intros b1 R. rewrite E, R. eexists; reflexivity.
  - intros handle rest b1 R. split.
    + intros e b2 C. rewrite E, R, C. reflexivity.
    + intros ws b2 C. split.
      * intros e b3 W. rewrite E, R, C, W. reflexivity.
      * intros b3 W r b4 Cl. rewrite E, R, C, W, Cl. reflexivity.
Qed.

(** C9. The hash [put] asks the storage for depends on the payload
    alone: two calls of [put] with the same payload, whatever their
    requests and their worlds, ask for the same hashes; and [put] with
    another request is the same computation. *)
Theorem put_key_depends_on_payload_only :
  forall (request1 request2 : jsstring) (response1 response2 : Response)
         (w1 w2 : World B) (data : Blob)
         (hashes1 hashes2 : list ContentHash) (create1 create2 : bool),
  blob response1 = Normal data ->
  blob response2 = Normal data ->
  In (RequestFileHandles hashes1 create1)
     (events_since w1 (snd (put host request1 response1 w1))) ->
  In (RequestFileHandles hashes2 create2)
     (events_since w2 (snd (put host request2 response2 w2))) ->
  hashes1 = hashes2 /\
  put host request1 response1 w1 = put host request2 response1 w1.
Proof.
  intros request1 request2 response1 response2 w1 w2 data hashes1 hashes2
    create1 create2 Hb1 Hb2 In1 In2.
  split; [|reflexivity].
  destruct (proj2 (put_trace request1 response1 w1) data _ Hb1 (getBlobHash_value data w1))
    as (evs1 & Ht1 & Hevs1).
  destruct (proj2 (put_trace request2 response2 w2) data _ Hb2 (getBlobHash_value data w2))
    as (evs2 & Ht2 & Hevs2).
  rewrite (events_since_app _ _ _ Ht1) in In1.
  rewrite (events_since_app _ _ _ Ht2) in In2.
  rewrite Forall_forall in Hevs1, Hevs2.
  destruct (Hevs1 _ In1) as [E1 | [[? E1] | [[? E1] | [? E1]]]]; try discriminate E1.
  destruct (Hevs2 _ In2) as [E2 | [[? E2] | [[? E2] | [? E2]]]]; try discriminate E2.
  congruence.
Qed.

End PutClaims.

(** ** Concrete runs *)

(** The in-memory storage leaves its files alone when asked for handles
    without [create], and when a handle is read. *)
Lemma request_without_create : forall hashes b,
  snd (request hashes false b) = b.
Proof.
  induction hashes as [|h hs IH]; intros b; cbn [request]; [reflexivity|].
  destruct (index_of h b 0); [|reflexivity].
  specialize (IH b). destruct (request hs false b) as [[l|e] b']; exact IH.
Qed.

Lemma read_leaves_store : forall h b, snd (read h b) = b.
Proof.
  intros h b. unfold read. destruct (nth_error b (N.to_nat h)) as [[? ?]|]; reflexivity.
Qed.

(** C7 at [config.json]: not eligible, nothing fetched. *)
Lemma getFileHash_config_json :
  test re_onnx config_url = false /\
  _getFileHash (host NavigatorWith offline) config_url empty_world
  = (Normal None, empty_world).
Proof.
  split; [vm_compute; reflexivity|].
  apply (getFileHash_other_location_null (host NavigatorWith offline)
           config_url empty_world).
  vm_compute; reflexivity.
Defined.

(** C1: with the network down, [_getFileHash] rejects for an eligible
    location instead of returning null, and [match] rejects with it. *)
Lemma getFileHash_rejects_offline :
  test re_onnx model_url = true /\
  fst (_getFileHash (host NavigatorWith offline) model_url empty_world)
  = Throw (TypeError "Failed to fetch") /\
  fst (_getFileHash (host NavigatorWith offline) model_url empty_world)
  <> Normal None.
Proof.
  split; [vm_compute; reflexivity|]. split; [vm_compute; reflexivity|].
  vm_compute. discriminate.
Qed.

(** C1, amended, at a 404 page without the marker. *)
Lemma getFileHash_not_found_page :
  _getFileHash
    (host NavigatorWith
       (fun _ => Normal {| status := 404; text := Normal (js "Entry not found") |}))
    model_url empty_world
  = (Normal None, log empty_world (Fetch (companion model_url))).
Proof.
  refine (proj1 (getFileHash_marker_absent_or_rejected
                   (host NavigatorWith
                      (fun _ => Normal {| status := 404;
                                          text := Normal (js "Entry not found") |}))
                   model_url empty_world _) _ _ _ _ _);
    vm_compute; reflexivity.
Defined.

(** C2: on a pointer file as it is served, the last line ended by a line
    feed, the value returned is the digest followed by a line feed; and
    an upper-case digest comes back in upper case. *)
Lemma getFileHash_not_the_digest :
  fst (_getFileHash (host NavigatorWith (serving (pointer_file "deadbeef")))
         model_url empty_world)
  = Normal (Some (js "deadbeef" ++ [LF])) /\
  fst (_getFileHash (host NavigatorWith (serving (pointer_unterminated "DEADBEEF")))
         model_url empty_world)
  = Normal (Some (js "DEADBEEF")).
Proof. split; vm_compute; reflexivity. Qed.

(** C2, amended, at a three-line pointer with no final line feed. *)
Lemma getFileHash_unterminated_pointer :
  _getFileHash (host NavigatorWith (serving (pointer_unterminated "DEADbeef")))
    model_url empty_world
  = (Normal (Some (js "DEADbeef")), log empty_world (Fetch (companion model_url))).
Proof.
  refine (proj1 (getFileHash_three_line_pointer
                   (host NavigatorWith (serving (pointer_unterminated "DEADbeef")))
                   model_url empty_world
                   {| status := 200; text := Normal (pointer_unterminated "DEADbeef") |}
                   (js "version https://git-lfs.github.com/spec/v1")
                   (js "DEADbeef")
                   (js "size 12345") _ _ _ _ _ _));
    vm_compute; reflexivity.
Defined.

(** C4 at a storage with no file for the resolved hash: the
    refusal of the storage is absorbed. *)
Lemma match_absorbs_not_found :
  exists r w2,
    match_ (host NavigatorWith (serving (pointer_unterminated "deadbeef")))
      model_url empty_world = (Normal r, w2) /\
    forall data, r = Some data ->
      exists hashValue h rest b1,
        Some (js "deadbeef") = Some hashValue /\
        isAvailable (host NavigatorWith (serving (pointer_unterminated "deadbeef"))) = true /\
        requestFileHandles (host NavigatorWith (serving (pointer_unterminated "deadbeef")))
          [{| algorithm := js "SHA-256"; value := hashValue |}] false
          (backend (log empty_world (Fetch (companion model_url))))
        = (Normal (h :: rest), b1) /\
        getFile (host NavigatorWith (serving (pointer_unterminated "deadbeef"))) h b1
        = (Normal data, backend w2).
Proof.
  apply (proj1 (match_absorbs_backend_failures
                  (host NavigatorWith (serving (pointer_unterminated "deadbeef")))
                  model_url empty_world)
           (Some (js "deadbeef"))
           (log empty_world (Fetch (companion model_url)))).
  vm_compute; reflexivity.
Defined.

(** C5: no [navigator] at all and the network down; [match] rejects
    where the claim has it return undefined. *)
Lemma match_rejects_without_navigator :
  isAvailable (host NavigatorUndefined offline) = false /\
  fst (match_ (host NavigatorUndefined offline) model_url empty_world)
  = Throw (TypeError "Failed to fetch").
Proof. split; vm_compute; reflexivity. Qed.

(** C5, amended, with no [navigator] and a network that serves a
    pointer. *)
Lemma unavailable_backend_run :
  (exists e,
     put (host NavigatorUndefined (serving (pointer_unterminated "deadbeef")))
       model_url {| blob := Normal payload |} empty_world = (Throw e, empty_world)) /\
  (exists r w',
     match_ (host NavigatorUndefined (serving (pointer_unterminated "deadbeef")))
       model_url empty_world = (r, w') /\
     backend w' = backend empty_world /\
     Forall (fun e => is_backend_call e = false) (events_since empty_world w') /\
     (r = Normal None \/
      exists e, r = Throw e /\
        _getFileHash (host NavigatorUndefined (serving (pointer_unterminated "deadbeef")))
          model_url empty_world = (Throw e, w'))).
Proof.
  apply (unavailable_backend_never_called
           (host NavigatorUndefined (serving (pointer_unterminated "deadbeef")))
           model_url {| blob := Normal payload |} empty_world).
  vm_compute; reflexivity.
Defined.

(** C9 at two requests, and two worlds, for one payload. *)
Lemma put_same_key_for_same_payload :
  [{| algorithm := js "SHA-256"; value := js "0203" |}]
  = [{| algorithm := js "SHA-256"; value := js "0203" |}] /\
  put (host NavigatorWith offline) model_url {| blob := Normal payload |} empty_world
  = put (host NavigatorWith offline) config_url {| blob := Normal payload |} empty_world.
Proof.
  apply (put_key_depends_on_payload_only (host NavigatorWith offline)
           model_url config_url
           {| blob := Normal payload |} {| blob := Normal payload |}
           empty_world (log empty_world (Fetch config_url)) payload
           [{| algorithm := js "SHA-256"; value := js "0203" |}]
           [{| algorithm := js "SHA-256"; value := js "0203" |}]
           true true).
  - vm_compute; reflexivity.
  - vm_compute; reflexivity.
  - vm_compute. left. reflexivity.
  - vm_compute. left. reflexivity.
Defined.

(** C10 at a hit: the file [put] stored is found, and the files are the
    same after [match]. *)
Lemma match_hit_leaves_files :
  contents
    (backend
       (snd (match_ (host NavigatorWith (serving (pointer_unterminated "0203")))
               model_url
               (snd (put (host NavigatorWith offline) model_url
                       {| blob := Normal payload |} empty_world)))))
  = contents
      (backend (snd (put (host NavigatorWith offline) model_url
                       {| blob := Normal payload |} empty_world))) /\
  Forall (fun e => is_read_only e = true)
    (events_since
       (snd (put (host NavigatorWith offline) model_url
               {| blob := Normal payload |} empty_world))
       (snd (match_ (host NavigatorWith (serving (pointer_unterminated "0203")))
               model_url
               (snd (put (host NavigatorWith offline) model_url
                       {| blob := Normal payload |} empty_world))))).
Proof.
  apply (match_leaves_storage_unchanged
           (host NavigatorWith (serving (pointer_unterminated "0203")))
           (ContentHash -> option Blob) contents model_url
           (snd (put (host NavigatorWith offline) model_url
                   {| blob := Normal payload |} empty_world))).
  - intros hashes b. cbn [requestFileHandles host]. rewrite request_without_create.
    reflexivity.
  - intros h b. cbn [getFile host]. rewrite read_leaves_store. reflexivity.
Defined.

(** ** Further properties of the class *)

Import Auxiliary.

Lemma match_oid_line_within : forall pre c d post rest bef,
  Forall (fun a => is_line_terminator a = false) pre ->
  Forall (fun a => is_word_char a = true) (c :: d) ->
  Forall (fun a => is_line_terminator a = false) post ->
  at_line_end rest ->
  match_here re_oid
    {| before := bef;
       after := pre ++ LF :: js "oid sha256:" ++ (c :: d) ++ LF :: post ++ rest;
       captures := [] |}
  = Some {| before := rev post ++ LF :: rev (c :: d) ++ rev (js "oid sha256:")
                        ++ LF :: rev pre ++ bef;
            after := rest;
            captures := [(1, c :: d)] |}.
Proof.
  intros pre c d post rest bef Hpre Hd Hpost Hrest.
  unfold match_here, re_oid. cbn [before after captures].
  cbn [compile]. cbn [after].
  apply lazy_dot_skips; try assumption.
  - cbn [Nat.add]. rewrite length_app. simpl. lia.
  - intros p1 a p2 ->. unfold char_matcher. cbn [after].
    apply Forall_app in Hpre as [_ Hpre]. inversion Hpre as [|? ? Ha _]; subst.
    rewrite (not_terminator_not_LF _ Ha). reflexivity.
  - unfold char_matcher at 1. cbn [after before captures].
    rewrite N.eqb_refl. cbn [before].
    change (is_line_terminator LF) with true. cbv iota.
    rewrite compile_lit.
    apply greedy_word_plus; try assumption.
    + simpl. reflexivity.
    + cbn [before after captures].
      rewrite firstn_consumed.
      unfold char_matcher at 1. cbn [after before captures].
      rewrite N.eqb_refl.
      apply lazy_dot_skips; try assumption.
      * simpl. rewrite length_app. simpl. lia.
      * intros p1 a p2 ->. cbn [after].
        apply Forall_app in Hpost as [_ Hpost]. inversion Hpost as [|? ? Ha _]; subst.
        rewrite Ha. reflexivity.
      * cbn [after]. destruct rest as [|a rest]; [reflexivity|].
        simpl in Hrest. rewrite Hrest. reflexivity.
Qed.

Lemma match_oid_at_last_LF : forall bef caps,
  match_here re_oid {| before := bef; after := [LF]; captures := caps |} = None.
Proof. reflexivity. Qed.

Lemma replace_oid_served : forall pre c d post,
  Forall (fun a => is_line_terminator a = false) pre ->
  Forall (fun a => is_word_char a = true) (c :: d) ->
  Forall (fun a => is_line_terminator a = false) post ->
  replace re_oid true [Ref 1]
    (pre ++ LF :: js "oid sha256:" ++ (c :: d) ++ LF :: post ++ [LF])
  = (c :: d) ++ [LF].
Proof.
  intros pre c d post Hpre Hd Hpost.
  unfold replace, start.
  destruct (length (pre ++ LF :: js "oid sha256:" ++ (c :: d) ++ LF :: post ++ [LF]))
    as [|fuel] eqn:Hlen.
  - rewrite length_app in Hlen. simpl in Hlen. lia.
  - cbn [replace_from].
    rewrite (match_oid_line_within pre c d post [LF] [] Hpre Hd Hpost eq_refl).
    cbn [captures after substitution lookup Nat.eqb length].
    rewrite length_app. cbn [length].
    replace (1 <? length pre + S _)%nat with true
      by (symmetry; apply Nat.ltb_lt; rewrite !length_app; simpl; lia).
    rewrite app_nil_r.
    destruct fuel as [|fuel]; cbn [replace_from after]; [reflexivity|].
    rewrite match_oid_at_last_LF. cbn [after].
    destruct fuel; reflexivity.
Qed.

Lemma eqb_succ_self : forall n, (n =? S n)%nat = false.
Proof. intros n. apply Nat.eqb_neq. lia. Qed.

Lemma lazy_dot_needs_LF : forall fuel aft bef caps k,
  Forall (fun a => (a =? LF)%N = false) aft ->
  repeat_matcher (compile Dot) fuel 0 false
    {| before := bef; after := aft; captures := caps |}
    (fun y => char_matcher (fun a => (a =? LF)%N) y k) = None.
Proof.
  induction fuel as [|fuel IH]; intros aft bef caps k Haft; [reflexivity|].
  cbn [repeat_matcher compile]. unfold char_matcher at 1 2. cbn [after before captures].
  destruct aft as [|a aft]; [reflexivity|].
  inversion Haft as [|? ? Ha Haft']; subst. rewrite Ha.
  destruct (negb (is_line_terminator a)); [|reflexivity].
  cbn [after length Nat.eqb andb pred].
  rewrite eqb_succ_self. apply IH, Haft'.
Qed.

Lemma match_oid_needs_LF : forall x,
  Forall (fun a => (a =? LF)%N = false) (after x) ->
  match_here re_oid x = None.
Proof.
  intros x H. unfold match_here, re_oid. cbn [compile]. cbn [after].
  apply lazy_dot_needs_LF, H.
Qed.

Lemma replace_oid_no_LF : forall aft bef caps fuel,
  Forall (fun a => (a =? LF)%N = false) aft ->
  replace_from re_oid true [Ref 1] fuel
    {| before := bef; after := aft; captures := caps |} = aft.
Proof.
  induction aft as [|a aft IH]; intros bef caps fuel H.
  - destruct fuel; cbn [replace_from]; rewrite match_oid_needs_LF by exact H; reflexivity.
  - destruct fuel; cbn [replace_from]; rewrite match_oid_needs_LF by exact H;
      cbn [after]; [reflexivity|].
    inversion H; subst. rewrite IH by assumption. reflexivity.
Qed.

Lemma startsWith_split : forall s t,
  startsWith t s = true -> t = s ++ skipn (length s) t.
Proof.
  induction s as [|c s IH]; intros t H; [reflexivity|].
  destruct t as [|a t]; [discriminate|]. cbn [startsWith] in H.
  apply andb_true_iff in H as [Hc H]. apply N.eqb_eq in Hc. subst.
  cbn [length skipn app]. f_equal. apply IH, H.
Qed.

Lemma includes_first : forall s t,
  includes t s = true ->
  exists a b, t = a ++ s ++ b /\ first_at a s b.
Proof.
  intros s. induction t as [|c t IH]; intros H.
  - cbn [includes] in H. rewrite orb_false_r in H.
    exists [], (skipn (length s) []). split; [apply (startsWith_split _ _ H)|].
    intros [|? ?] ? ? E; discriminate E.
  - cbn [includes] in H. destruct (startsWith (c :: t) s) eqn:S0.
    + exists [], (skipn (length s) (c :: t)). split; [apply (startsWith_split _ _ S0)|].
      intros [|? ?] ? ? E; discriminate E.
    + cbn [orb] in H. destruct (IH H) as (a & b & -> & Hfirst).
      exists (c :: a), b. split; [reflexivity|].
      intros [|c0 p1] c' p2 E; cbn [app] in E.
      * injection E as <- <-. exact S0.
      * injection E as <- ->. apply (Hfirst p1 c' p2 eq_refl).
Qed.

Lemma startsWith_prefix : forall s1 s2 t,
  startsWith t (s1 ++ s2) = true -> startsWith t s1 = true.
Proof.
  induction s1 as [|c s1 IH]; intros s2 t H; [reflexivity|].
  destruct t as [|a t]; [discriminate|]. cbn [startsWith app] in *.
  apply andb_true_iff in H as [Hc H]. rewrite Hc. apply (IH s2 t H).
Qed.

Lemma includes_prefix : forall s1 s2 t,
  includes t (s1 ++ s2) = true -> includes t s1 = true.
Proof.
  intros s1 s2. induction t as [|c t IH]; intros H; cbn [includes] in *.
  - rewrite orb_false_r in *. apply (startsWith_prefix s1 s2 _ H).
  - apply orb_true_iff in H as [H|H].
    + rewrite (startsWith_prefix s1 s2 _ H). reflexivity.
    + rewrite (IH H). apply orb_true_r.
Qed.

Lemma replace_lit_first : forall s r a b bef fuel,
  first_at a s b ->
  length a <= fuel ->
  replace_from (lit s) false [Text r] fuel
    {| before := bef; after := a ++ s ++ b; captures := [] |} = a ++ r ++ b.
Proof.
  intros s r. induction a as [|c a IH]; intros b bef fuel Hfirst Hfuel.
  - cbn [app]. destruct fuel; cbn [replace_from]; unfold match_here;
      cbn [before after captures]; rewrite compile_lit;
      cbn [captures after substitution]; rewrite app_nil_r; reflexivity.
  - destruct fuel as [|fuel]; [simpl in Hfuel; lia|].
    cbn [replace_from app]. unfold match_here. rewrite compile_lit_startsWith.
    cbn [before after captures].
    rewrite (Hfirst [] c a eq_refl). f_equal.
    apply IH; [|simpl in Hfuel; lia].
    intros p1 c' p2 ->. apply (Hfirst (c :: p1) c' p2 eq_refl).
Qed.

Lemma byte_of_two_hex_digits : forall b : Byte.byte,
  byte_of_two_hex (nth (N.to_nat (Byte.to_N b / 16)) hex_alphabet 0%N)
                  (nth (N.to_nat (Byte.to_N b mod 16)) hex_alphabet 0%N) = Some b.
Proof. destruct b; vm_compute; reflexivity. Qed.

Lemma bytes_of_hex_digits : forall l : list Byte.byte,
  bytes_of_hex (concat (map two_hex_digits l)) = l.
Proof.
  induction l as [|b l IH]; [reflexivity|].
  cbn [map concat two_hex_digits app bytes_of_hex].
  rewrite byte_of_two_hex_digits, IH. reflexivity.
Qed.

Lemma lower_hex_is_word : forall c, is_lower_hex c = true -> is_word_char c = true.
Proof.
  intros c. unfold is_lower_hex, is_word_char.
  destruct (N.leb_spec 48 c), (N.leb_spec c 57), (N.leb_spec 97 c),
    (N.leb_spec c 102), (N.leb_spec c 122); cbn; try reflexivity; try discriminate;
    try lia; intros _; rewrite ?orb_true_r; reflexivity.
Qed.

Lemma LF_not_lower_hex : forall s, forallb is_lower_hex (s ++ [LF]) = false.
Proof.
  intros s. rewrite forallb_app. cbn. apply andb_false_r.
Qed.

Section ExtraFacts.
Context {B : Type} (host : Host B).

Lemma companion_first : forall a b,
  first_at a (js "/resolve/") b ->
  companion (a ++ js "/resolve/" ++ b) = a ++ js "/raw/" ++ b.
Proof.
  intros a b H. unfold companion, replace, start.
  apply (replace_lit_first (js "/resolve/") (js "/raw/") a b [] _ H).
  rewrite length_app. lia.
Qed.

(** The storage calls of [match]: at most a request for the resolved
    hash, without [create]. *)
Lemma match_events : forall url w,
  let evs := events_since w (snd (match_ host url w)) in
  let evs0 := events_since w (snd (_getFileHash host url w)) in
  evs = evs0 \/
  exists c s,
    fst (_getFileHash host url w) = Normal (Some (c :: s)) /\
    let rq := RequestFileHandles [{| algorithm := js "SHA-256"; value := c :: s |}] false in
    (evs = evs0 ++ [rq] \/ exists h, evs = evs0 ++ [rq; GetFile h]).
Proof.
  intros url w. cbv zeta.
  destruct (getFileHash_trace host url w) as (Hb & evs & Ht & Hevs).
  destruct (_getFileHash host url w) as [[v|e] w1] eqn:E; cbn [snd fst] in *.
  - destruct (isAvailable host) eqn:Hav.
    + destruct v as [[|c s]|].
      * rewrite (match_no_hash host url w _ w1 E) by auto. left; reflexivity.
      * right. exists c, s. split; [reflexivity|].
        rewrite (match_lookup host url w c s w1 E (available_navigator host Hav)).
        cbv zeta. change HASH_ALGORITHM with (js "SHA-256").
        rewrite (events_since_app w w1 evs Ht).
        destruct (requestFileHandles host _ false (backend w1)) as [[[|h hs]|e] b1];
          cbn [snd].
        -- left. apply events_since_app. cbn [trace]. rewrite Ht, <- app_assoc. reflexivity.
        -- right. exists h.
           destruct (getFile host h b1) as [[data|e] b2]; cbn [snd];
             apply events_since_app; cbn [trace]; rewrite Ht, <- !app_assoc; reflexivity.
        -- left. apply events_since_app. cbn [trace]. rewrite Ht, <- app_assoc. reflexivity.
      * rewrite (match_no_hash host url w _ w1 E) by auto. left; reflexivity.
    + rewrite (match_unavailable host url w v w1 E Hav). left; reflexivity.
  - rewrite (match_rethrows host url w e w1 E). left; reflexivity.
Qed.

Lemma getFileHash_events : forall url w,
  events_since w (snd (_getFileHash host url w))
  = if test re_onnx url then [Fetch (companion url)] else [].
Proof.
  intros url w. destruct (test re_onnx url) eqn:H.
  - rewrite (getFileHash_fetches host url w H).
    assert (G : events_since w (log w (Fetch (companion url))) = [Fetch (companion url)])
      by (apply events_since_app; reflexivity).
    destruct (fetch host (companion url)) as [resp|e]; [|exact G].
    destruct (text resp) as [body|e]; exact G.
  - rewrite (getFileHash_skips host url w H). apply events_since_app.
    symmetry; apply app_nil_r.
Qed.

Lemma hex_digits_lower : forall l : list Byte.byte,
  forallb is_lower_hex (concat (map two_hex_digits l)) = true.
Proof.
  induction l as [|b l IH]; [reflexivity|].
  cbn [map concat]. rewrite forallb_app, IH, two_hex_digits_lower. reflexivity.
Qed.

Lemma hex_digits_length : forall l : list Byte.byte,
  length (concat (map two_hex_digits l)) = 2 * length l.
Proof.
  induction l as [|b l IH]; [reflexivity|].
  cbn [map concat]. rewrite length_app, IH. cbn [two_hex_digits length]. lia.
Qed.

Lemma match_request_value : forall url w hashes create,
  In (RequestFileHandles hashes create) (events_since w (snd (match_ host url w))) ->
  exists c s,
    fst (_getFileHash host url w) = Normal (Some (c :: s)) /\
    hashes = [{| algorithm := js "SHA-256"; value := c :: s |}] /\
    create = false.
Proof.
  intros url w hashes create Hin.
  pose proof (match_events url w) as M. cbv zeta in M.
  rewrite getFileHash_events in M.
  assert (N0 : ~ In (RequestFileHandles hashes create)
                   (if test re_onnx url then [Fetch (companion url)] else [])).
  { destruct (test re_onnx url); [intros [E|[]]; discriminate E | intros []]. }
  destruct M as [M | (c & s & Ev & [M | [h M]])]; rewrite M in Hin.
  - contradiction.
  - apply in_app_or in Hin as [Hin|[Hin|[]]]; [contradiction|].
    injection Hin as <- <-. exists c, s. auto.
  - apply in_app_or in Hin as [Hin|[Hin|[Hin|[]]]];
      [contradiction| |discriminate Hin].
    injection Hin as <- <-. exists c, s. auto.
Qed.

Lemma getFileHash_three_lines : forall url w resp first oid last,
  test re_onnx url = true ->
  fetch host (companion url) = Normal resp ->
  text resp = Normal (first ++ [LF] ++ js "oid sha256:" ++ oid ++ [LF] ++ last) ->
  one_line first = true ->
  is_word oid = true ->
  one_line last = true ->
  _getFileHash host url w = (Normal (Some oid), log w (Fetch (companion url))).
Proof.
  intros url w resp first oid last Hurl Hf Ht H1 Hw H2.
  unfold is_word in Hw. apply andb_true_iff in Hw as [Hne Hw].
  destruct oid as [|c d]; [discriminate|].
  apply one_line_Forall in H1, H2. apply forallb_Forall in Hw.
  rewrite (getFileHash_fetches host url w Hurl), Hf, Ht.
  replace (first ++ [LF] ++ js "oid sha256:" ++ (c :: d) ++ [LF] ++ last)
    with ((first ++ [LF]) ++ js "oid sha256:" ++ ((c :: d) ++ [LF] ++ last))
    by (rewrite <- app_assoc; reflexivity).
  rewrite includes_infix.
  replace ((first ++ [LF]) ++ js "oid sha256:" ++ ((c :: d) ++ [LF] ++ last))
    with (first ++ LF :: js "oid sha256:" ++ (c :: d) ++ LF :: last)
    by (rewrite <- app_assoc; reflexivity).
  rewrite replace_oid_line by assumption. reflexivity.
Qed.

Lemma match_other_location_free_eq : forall url w,
  test re_onnx url = false -> match_ host url w = (Normal None, w).
Proof.
  intros url w H.
  apply (match_no_hash host url w None w (getFileHash_skips host url w H)). auto.
Qed.

End ExtraFacts.

Lemma eligible_split : forall url : jsstring,
  test re_onnx url = true ->
  exists a b, url = a ++ js "/resolve/" ++ b /\ first_at a (js "/resolve/") b.
Proof.
  intros url H. unfold re_onnx in H. rewrite test_lit in H.
  change (js "/resolve/main/onnx/") with (js "/resolve/" ++ js "main/onnx/") in H.
  apply includes_prefix in H. apply includes_first, H.
Qed.

Lemma eligible_companion_length : forall url : jsstring,
  test re_onnx url = true -> length url = length (companion url) + 4.
Proof.
  intros url H. destruct (eligible_split url H) as (a & b & -> & Hfirst).
  rewrite (companion_first a b Hfirst), !length_app. simpl. lia.
Qed.

Section Extras.
Context {B : Type} (host : Host B).

(** X1. A location is eligible only if it contains
    [/resolve/main/onnx/]; its companion location is then the location
    with its first [/resolve/] replaced by [/raw/], four code units
    shorter. *)
Theorem eligible_companion : forall url : jsstring,
  test re_onnx url = true ->
  includes url (js "/resolve/main/onnx/") = true /\
  exists a b,
    url = a ++ js "/resolve/" ++ b /\
    first_at a (js "/resolve/") b /\
    companion url = a ++ js "/raw/" ++ b /\
    length url = length (companion url) + 4.
Proof.
  intros url H. split; [unfold re_onnx in H; rewrite test_lit in H; exact H|].
  destruct (eligible_split url H) as (a & b & E & Hfirst).
  exists a, b. rewrite <- (eligible_companion_length url H). subst url.
  rewrite (companion_first a b Hfirst). auto.
Qed.

(** X2. [_getFileHash] makes no call for a location that is not
    eligible and exactly one for an eligible one, a [fetch] of the
    companion location; it never fetches the location itself. *)
Theorem getFileHash_fetches_companion_only : forall (url : jsstring) (w : World B),
  events_since w (snd (_getFileHash host url w))
  = (if test re_onnx url then [Fetch (companion url)] else []) /\
  ~ In (Fetch url) (events_since w (snd (_getFileHash host url w))).
Proof.
  intros url w. rewrite getFileHash_events. split; [reflexivity|].
  destruct (test re_onnx url) eqn:H; [|intros []].
  pose proof (eligible_companion_length url H) as Hlen.
  intros [E|[]]. injection E as E. rewrite E in Hlen. lia.
Qed.

(** X3. When the companion text is a pointer of three lines each ended
    by a line feed, [_getFileHash] returns the digest followed by a line
    feed; every hash [match] then requests differs from the hash
    [_getBlobHash] computes, whatever the payload. *)
Theorem served_pointer_never_hits :
  forall (url : jsstring) (w : World B) (resp : FetchResponse)
         (first oid last : jsstring),
  test re_onnx url = true ->
  fetch host (companion url) = Normal resp ->
  text resp = Normal (first ++ [LF] ++ js "oid sha256:" ++ oid ++ [LF] ++ last ++ [LF]) ->
  one_line first = true ->
  is_word oid = true ->
  one_line last = true ->
  _getFileHash host url w
  = (Normal (Some (oid ++ [LF])), log w (Fetch (companion url))) /\
  forall hashes create data w0 h,
    In (RequestFileHandles hashes create) (events_since w (snd (match_ host url w))) ->
    _getBlobHash host data w0 = (Normal h, w0) ->
    hashes <> [h].
Proof.
  intros url w resp first oid last Hurl Hf Ht H1 Hw H2.
  assert (E : _getFileHash host url w
              = (Normal (Some (oid ++ [LF])), log w (Fetch (companion url)))).
  { unfold is_word in Hw. apply andb_true_iff in Hw as [Hne Hw].
    destruct oid as [|c d]; [discriminate|].
    apply one_line_Forall in H1, H2. apply forallb_Forall in Hw.
    rewrite (getFileHash_fetches host url w Hurl), Hf, Ht.
    replace (first ++ [LF] ++ js "oid sha256:" ++ (c :: d) ++ [LF] ++ last ++ [LF])
      with ((first ++ [LF]) ++ js "oid sha256:" ++ ((c :: d) ++ [LF] ++ last ++ [LF]))
      by (rewrite <- app_assoc; reflexivity).
    rewrite includes_infix.
    replace ((first ++ [LF]) ++ js "oid sha256:" ++ ((c :: d) ++ [LF] ++ last ++ [LF]))
      with (first ++ LF :: js "oid sha256:" ++ (c :: d) ++ LF :: last ++ [LF])
      by (rewrite <- app_assoc; reflexivity).
    rewrite replace_oid_served by assumption. reflexivity. }
  split; [exact E|].
  intros hashes create data w0 h Hin Hh ->.
  destruct (match_request_value host url w _ _ Hin) as (c & s & Ev & Eh & _).
  rewrite E in Ev. cbn [fst] in Ev. injection Ev as Ev.
  rewrite getBlobHash_value in Hh. injection Hh as <-. injection Eh as Eh.
  pose proof (hex_digits_lower (digest host (js "SHA-256") data)) as L.
  rewrite Eh, <- Ev, LF_not_lower_hex in L. discriminate L.
Qed.

(** X4. If [match] asks the storage for the very hash that
    [_getBlobHash] computes for some payload, then the value the hash
    resolution returned is that hash value: lowercase hexadecimal digits
    only, two per byte of the digest. *)
Theorem match_hits_only_lowercase_hex :
  forall (url : jsstring) (w w0 : World B) (hashes : list ContentHash)
         (create : bool) (data : Blob) (h : ContentHash),
  In (RequestFileHandles hashes create) (events_since w (snd (match_ host url w))) ->
  _getBlobHash host data w0 = (Normal h, w0) ->
  hashes = [h] ->
  fst (_getFileHash host url w) = Normal (Some (value h)) /\
  forallb is_lower_hex (value h) = true /\
  length (value h) = 2 * length (digest host (js "SHA-256") data).
Proof.
  intros url w w0 hashes create data h Hin Hh ->.
  destruct (match_request_value host url w _ _ Hin) as (c & s & Ev & Eh & _).
  rewrite getBlobHash_value in Hh. injection Hh as <-. injection Eh as Eh.
  cbn [value]. split; [rewrite Ev, Eh; reflexivity|].
  split; [apply hex_digits_lower | apply hex_digits_length].
Qed.

(** X5. When the companion text is a pointer of three lines, the last
    one unterminated, that declares the lowercase hexadecimal digest of a
    payload, and the storage is available, [match] fetches the companion
    and then asks for exactly the hash [_getBlobHash] computes for that
    payload, the one [put] stores it under. *)
Theorem match_and_put_agree_on_key :
  forall (url : jsstring) (w w0 : World B) (resp : FetchResponse)
         (first last : jsstring) (data : Blob) (h : ContentHash),
  test re_onnx url = true ->
  fetch host (companion url) = Normal resp ->
  _getBlobHash host data w0 = (Normal h, w0) ->
  digest host (js "SHA-256") data <> [] ->
  text resp = Normal (first ++ [LF] ++ js "oid sha256:" ++ value h ++ [LF] ++ last) ->
  one_line first = true ->
  one_line last = true ->
  isAvailable host = true ->
  exists evs,
    events_since w (snd (match_ host url w))
    = Fetch (companion url) :: RequestFileHandles [h] false :: evs.
Proof.
  intros url w w0 resp first last data h Hurl Hf Hh Hne Ht H1 H2 Hav.
  rewrite getBlobHash_value in Hh. injection Hh as <-. cbn [value] in Ht.
  pose proof (hex_digits_lower (digest host (js "SHA-256") data)) as L.
  pose proof (hex_digits_length (digest host (js "SHA-256") data)) as Len.
  destruct (concat (map two_hex_digits (digest host (js "SHA-256") data)))
    as [|c d] eqn:V.
  { destruct (digest host (js "SHA-256") data); [congruence|discriminate Len]. }
  assert (Hw : is_word (c :: d) = true).
  { unfold is_word. cbn [length Nat.eqb negb andb].
    apply forallb_forall. intros x Hx. apply lower_hex_is_word.
    rewrite forallb_forall in L. apply L, Hx. }
  pose proof (getFileHash_three_lines host url w resp first (c :: d) last
                Hurl Hf Ht H1 Hw H2) as E.
  rewrite (match_lookup host url w c d _ E (available_navigator host Hav)).
  cbv zeta. change HASH_ALGORITHM with (js "SHA-256"). cbn [log backend trace].
  destruct (requestFileHandles host _ false (backend w)) as [[[|hd hs]|e] b1];
    cbn [snd]; try (eexists; apply events_since_app; cbn [trace];
                    rewrite <- ?app_assoc; reflexivity).
  destruct (getFile host hd b1) as [[blob|e] b2]; cbn [snd];
    eexists; apply events_since_app; cbn [trace]; rewrite <- ?app_assoc; reflexivity.
Qed.

(** X6. When [put] completes normally, the payload was read from the
    response; the storage returned a first handle to the request, with
    [create], for the hash [_getBlobHash] computes from the payload;
    [createWritable] on that handle returned a stream; [write] of the
    payload to that stream and [close] of that stream succeeded, each in
    the state the call before it left; and these four calls, in this
    order, are all the calls [put] made. *)
Theorem put_success_sequence :
  forall (request : jsstring) (response : Response) (w w' : World B),
  put host request response w = (Normal tt, w') ->
  exists data h handle rest ws b1 b2 b3,
    blob response = Normal data /\
    _getBlobHash host data w = (Normal h, w) /\
    requestFileHandles host [h] true (backend w) = (Normal (handle :: rest), b1) /\
    createWritable host handle b1 = (Normal ws, b2) /\
    write host ws data b2 = (Normal tt, b3) /\
    close host ws b3 = (Normal tt, backend w') /\
    events_since w w'
    = [RequestFileHandles [h] true; CreateWritable handle; Write ws data; Close ws].
Proof.
  intros request response w w' H.
  destruct (blob response) as [data|e] eqn:Hblob;
    [|rewrite (put_no_blob host request response w e Hblob) in H; discriminate H].
  destruct (isAvailable host) eqn:Hav;
    [|destruct (put_unavailable host request response w Hav) as [e E];
      rewrite E in H; discriminate H].
  rewrite (put_run host request response w data _ Hblob (getBlobHash_value host data w)
             (available_navigator host Hav)) in H.
  cbv zeta in H.
  destruct (requestFileHandles host _ true (backend w)) as [[[|handle hs]|e] b1] eqn:R;
    try discriminate H.
  destruct (createWritable host handle b1) as [[ws|e] b2] eqn:C; try discriminate H.
  destruct (write host ws data b2) as [[[]|e] b3] eqn:W; try discriminate H.
  destruct (close host ws b3) as [r b4] eqn:Cl. injection H as -> <-.
  exists data. eexists. exists handle, hs, ws, b1, b2, b3.
  split; [reflexivity|]. split; [apply getBlobHash_value|].
  split; [exact R|]. split; [exact C|]. split; [exact W|]. split; [exact Cl|].
  apply events_since_app. cbn [trace]. rewrite <- !app_assoc. reflexivity.
Qed.

(** X7. [put] closes a stream only as its last call, right after the
    write of the payload to that same stream, and only when that write
    succeeded in the state [createWritable] left. When the write fails
    there, [put] makes no further call: the stream is never closed, and
    [put] rejects with the error of the write. *)
Theorem put_closes_only_after_write :
  forall (request : jsstring) (response : Response) (w : World B),
  (forall ws,
     In (Close ws) (events_since w (snd (put host request response w))) ->
     exists data h handle rest b1 b2 b3,
       blob response = Normal data /\
       _getBlobHash host data w = (Normal h, w) /\
       requestFileHandles host [h] true (backend w) = (Normal (handle :: rest), b1) /\
       createWritable host handle b1 = (Normal ws, b2) /\
       write host ws data b2 = (Normal tt, b3) /\
       events_since w (snd (put host request response w))
       = [RequestFileHandles [h] true; CreateWritable handle; Write ws data; Close ws]) /\
  (forall data h handle rest ws b1 b2 b3 e,
     blob response = Normal data ->
     _getBlobHash host data w = (Normal h, w) ->
     isAvailable host = true ->
     requestFileHandles host [h] true (backend w) = (Normal (handle :: rest), b1) ->
     createWritable host handle b1 = (Normal ws, b2) ->
     write host ws data b2 = (Throw e, b3) ->
     fst (put host request response w) = Throw e /\
     events_since w (snd (put host request response w))
     = [RequestFileHandles [h] true; CreateWritable handle; Write ws data]).
Proof.
  intros request response w. split.
  - intros ws Hin.
    destruct (blob response) as [data|e] eqn:Hblob.
    2:{ rewrite (put_no_blob host request response w e Hblob) in Hin. cbn [snd] in Hin.
        rewrite (events_since_app w w [] (eq_sym (app_nil_r _))) in Hin. destruct Hin. }
    destruct (isAvailable host) eqn:Hav.
    2:{ destruct (put_unavailable host request response w Hav) as [e E].
        rewrite E in Hin. cbn [snd] in Hin.
        rewrite (events_since_app w w [] (eq_sym (app_nil_r _))) in Hin. destruct Hin. }
    rewrite (put_run host request response w data _ Hblob (getBlobHash_value host data w)
               (available_navigator host Hav)) in *.
    cbv zeta in *.
    destruct (requestFileHandles host _ true (backend w)) as [[[|handle hs]|e] b1] eqn:R;
      cbn [snd] in *.
    + erewrite events_since_app in Hin by (cbn [trace]; reflexivity).
      destruct Hin as [Hin|[]]; discriminate Hin.
    + destruct (createWritable host handle b1) as [[ws'|e] b2] eqn:C; cbn [snd] in *.
      * destruct (write host ws' data b2) as [[[]|e] b3] eqn:W; cbn [snd] in *.
        -- destruct (close host ws' b3) as [r b4]. cbn [snd] in *.
           erewrite events_since_app in *
             by (cbn [trace]; rewrite <- !app_assoc; reflexivity).
           cbn [app In] in Hin.
           destruct Hin as [Hin|[Hin|[Hin|[Hin|[]]]]]; try discriminate Hin.
           injection Hin as <-. exists data. eexists. exists handle, hs, b1, b2, b3.
           split; [reflexivity|]. split; [apply getBlobHash_value|]. auto.
        -- erewrite events_since_app in Hin
             by (cbn [trace]; rewrite <- !app_assoc; reflexivity).
           cbn [app In] in Hin.
           destruct Hin as [Hin|[Hin|[Hin|[]]]]; discriminate Hin.
      * erewrite events_since_app in Hin
          by (cbn [trace]; rewrite <- !app_assoc; reflexivity).
        cbn [app In] in Hin. destruct Hin as [Hin|[Hin|[]]]; discriminate Hin.
    + erewrite events_since_app in Hin by (cbn [trace]; reflexivity).
      destruct Hin as [Hin|[]]; discriminate Hin.
  - intros data h handle rest ws b1 b2 b3 e Hblob Hh Hav R C W.
    rewrite (put_run host request response w data h Hblob Hh
               (available_navigator host Hav)).
    cbv zeta. rewrite R, C, W. cbn [fst snd]. split; [reflexivity|].
    apply events_since_app. cbn [trace]. rewrite <- !app_assoc. reflexivity.
Qed.

(** X8. For a location that is not eligible, [match] resolves to
    undefined and leaves the world as it was: it makes no [fetch] and no
    storage call. *)
Theorem match_other_location_is_free : forall (url : jsstring) (w : World B),
  test re_onnx url = false ->
  match_ host url w = (Normal None, w).
Proof.
  intros url w H. apply (match_other_location_free_eq host url w H).
Qed.

(** X9. [match] makes at most three calls, each at most once and in
    this order: the [fetch] of the companion location, a request without
    [create] for the one hash with the resolved value, and a read of one
    handle. *)
Theorem match_calls_at_most_once_each : forall (url : jsstring) (w : World B),
  let evs := events_since w (snd (match_ host url w)) in
  evs = [] \/
  evs = [Fetch (companion url)] \/
  exists v,
    fst (_getFileHash host url w) = Normal (Some v) /\
    let rq := RequestFileHandles [{| algorithm := js "SHA-256"; value := v |}] false in
    (evs = [Fetch (companion url); rq] \/
     exists h, evs = [Fetch (companion url); rq; GetFile h]).
Proof.
  intros url w. cbv zeta.
  pose proof (match_events host url w) as M. cbv zeta in M.
  rewrite getFileHash_events in M.
  destruct (test re_onnx url) eqn:H.
  - destruct M as [M | (c & s & Ev & [M | [h M]])].
    + right; left; exact M.
    + right; right. exists (c :: s). split; [exact Ev|]. left; exact M.
    + right; right. exists (c :: s). split; [exact Ev|]. right; exists h; exact M.
  - rewrite (match_other_location_free_eq host url w H). left.
    apply events_since_app. symmetry; apply app_nil_r.
Qed.

(** X10. The hexadecimal encoding loses nothing: two hashes computed by
    [_getBlobHash] are equal exactly when the digests of their payloads
    are equal. *)
Theorem getBlobHash_injective_on_digests :
  forall (data1 data2 : Blob) (w1 w2 : World B) (h1 h2 : ContentHash),
  _getBlobHash host data1 w1 = (Normal h1, w1) ->
  _getBlobHash host data2 w2 = (Normal h2, w2) ->
  (h1 = h2 <-> digest host (js "SHA-256") data1 = digest host (js "SHA-256") data2).
Proof.
  intros data1 data2 w1 w2 h1 h2 E1 E2.
  rewrite getBlobHash_value in E1, E2. injection E1 as <-. injection E2 as <-.
  split.
  - intros E. injection E as E.
    rewrite <- (bytes_of_hex_digits (digest host (js "SHA-256") data1)), E.
    apply bytes_of_hex_digits.
  - intros ->. reflexivity.
Qed.

(** X11. When the companion text contains [oid sha256:] but no line
    feed at all, the pattern matches nowhere and [_getFileHash] returns
    the whole text as the hash value. *)
Theorem getFileHash_one_line_text_whole :
  forall (url : jsstring) (w : World B) (resp : FetchResponse) (body : jsstring),
  test re_onnx url = true ->
  fetch host (companion url) = Normal resp ->
  text resp = Normal body ->
  includes body (js "oid sha256:") = true ->
  forallb (fun a => negb (a =? LF)%N) body = true ->
  _getFileHash host url w = (Normal (Some body), log w (Fetch (companion url))).
Proof.
  intros url w resp body Hurl Hf Ht Hi Hno.
  rewrite (getFileHash_fetches host url w Hurl), Hf, Ht, Hi.
  assert (F : Forall (fun a => (a =? LF)%N = false) body).
  { apply Forall_forall. intros a Ha. rewrite forallb_forall in Hno.
    specialize (Hno a Ha). destruct (a =? LF)%N; [discriminate|reflexivity]. }
  unfold replace, start. rewrite (replace_oid_no_LF body [] [] _ F).
  destruct body; [discriminate Hi|reflexivity].
Qed.

End Extras.

(** ** Concrete runs of the further properties *)

(** X1 at the model file. *)
Lemma model_url_companion :
  includes model_url (js "/resolve/main/onnx/") = true /\
  exists a b,
    model_url = a ++ js "/resolve/" ++ b /\
    first_at a (js "/resolve/") b /\
    companion model_url = a ++ js "/raw/" ++ b /\
    length model_url = length (companion model_url) + 4.
Proof.
  apply (eligible_companion model_url). vm_compute; reflexivity.
Defined.

(** X3 at a pointer file as the hub serves it. *)
Lemma served_pointer_run :
  _getFileHash (host NavigatorWith (serving (pointer_file "deadbeef")))
    model_url empty_world
  = (Normal (Some (js "deadbeef" ++ [LF])),
     log empty_world (Fetch (companion model_url))) /\
  forall hashes create data w0 h,
    In (RequestFileHandles hashes create)
       (events_since empty_world
          (snd (match_ (host NavigatorWith (serving (pointer_file "deadbeef")))
                  model_url empty_world))) ->
    _getBlobHash (host NavigatorWith (serving (pointer_file "deadbeef"))) data w0
    = (Normal h, w0) ->
    hashes <> [h].
Proof.
  refine (served_pointer_never_hits
            (host NavigatorWith (serving (pointer_file "deadbeef")))
            model_url empty_world
            {| status := 200; text := Normal (pointer_file "deadbeef") |}
            (js "version https://git-lfs.github.com/spec/v1")
            (js "deadbeef")
            (js "size 12345") _ _ _ _ _ _);
    vm_compute; reflexivity.
Defined.

(** X4 at a pointer that declares the checksum of the payload. *)
Lemma match_hit_key_run :
  fst (_getFileHash (host NavigatorWith (serving (pointer_unterminated "0203")))
         model_url empty_world)
  = Normal (Some (value {| algorithm := js "SHA-256"; value := js "0203" |})) /\
  forallb is_lower_hex (value {| algorithm := js "SHA-256"; value := js "0203" |})
  = true /\
  length (value {| algorithm := js "SHA-256"; value := js "0203" |})
  = 2 * length (digest (host NavigatorWith (serving (pointer_unterminated "0203")))
                  (js "SHA-256") payload).
Proof.
  refine (match_hits_only_lowercase_hex
            (host NavigatorWith (serving (pointer_unterminated "0203")))
            model_url empty_world empty_world
            [{| algorithm := js "SHA-256"; value := js "0203" |}] false payload
            {| algorithm := js "SHA-256"; value := js "0203" |} _ _ _).
  - vm_compute. right. left. reflexivity.
  - vm_compute; reflexivity.
  - reflexivity.
Defined.

(** X5 at the same pointer and payload. *)
Lemma match_and_put_key_run :
  exists evs,
    events_since empty_world
      (snd (match_ (host NavigatorWith (serving (pointer_unterminated "0203")))
              model_url empty_world))
    = Fetch (companion model_url)
      :: RequestFileHandles [{| algorithm := js "SHA-256"; value := js "0203" |}] false
      :: evs.
Proof.
  refine (match_and_put_agree_on_key
            (host NavigatorWith (serving (pointer_unterminated "0203")))
            model_url empty_world empty_world
            {| status := 200; text := Normal (pointer_unterminated "0203") |}
            (js "version https://git-lfs.github.com/spec/v1")
            (js "size 12345") payload
            {| algorithm := js "SHA-256"; value := js "0203" |} _ _ _ _ _ _ _ _);
    try (vm_compute; reflexivity).
  vm_compute. discriminate.
Defined.

(** X6 at a first store of the payload. *)
Lemma put_success_run :
  exists data h handle rest ws b1 b2 b3,
    blob {| blob := Normal payload |} = Normal data /\
    _getBlobHash (host NavigatorWith offline) data empty_world
    = (Normal h, empty_world) /\
    requestFileHandles (host NavigatorWith offline) [h] true (backend empty_world)
    = (Normal (handle :: rest), b1) /\
    createWritable (host NavigatorWith offline) handle b1 = (Normal ws, b2) /\
    write (host NavigatorWith offline) ws data b2 = (Normal tt, b3) /\
    close (host NavigatorWith offline) ws b3
    = (Normal tt,
       backend (snd (put (host NavigatorWith offline) model_url
                       {| blob := Normal payload |} empty_world))) /\
    events_since empty_world
      (snd (put (host NavigatorWith offline) model_url
              {| blob := Normal payload |} empty_world))
    = [RequestFileHandles [h] true; CreateWritable handle; Write ws data; Close ws].
Proof.
  apply (put_success_sequence (host NavigatorWith offline) model_url
           {| blob := Normal payload |} empty_world
           (snd (put (host NavigatorWith offline) model_url
                   {| blob := Normal payload |} empty_world))).
  vm_compute; reflexivity.
Defined.

(** X7 on a disk that is full: the write is refused, [put] rejects with
    its error and the stream stays open. *)
Lemma put_disk_full_run :
  fst (put (host_disk_full offline) model_url {| blob := Normal payload |} empty_world)
  = Throw (DOMException "QuotaExceededError") /\
  events_since empty_world
    (snd (put (host_disk_full offline) model_url {| blob := Normal payload |}
            empty_world))
  = [RequestFileHandles [{| algorithm := js "SHA-256"; value := js "0203" |}] true;
     CreateWritable 0%N; Write 0%N payload].
Proof.
  refine (proj2 (put_closes_only_after_write (host_disk_full offline) model_url
                   {| blob := Normal payload |} empty_world)
            payload {| algorithm := js "SHA-256"; value := js "0203" |}
            0%N [] 0%N
            [({| algorithm := js "SHA-256"; value := js "0203" |}, [])]
            [({| algorithm := js "SHA-256"; value := js "0203" |}, [])]
            [({| algorithm := js "SHA-256"; value := js "0203" |}, [])]
            (DOMException "QuotaExceededError") _ _ _ _ _ _);
    vm_compute; reflexivity.
Defined.

(** X8 at [config.json], with the network down and no storage. *)
Lemma match_config_json :
  match_ (host NavigatorUndefined offline) config_url empty_world
  = (Normal None, empty_world).
Proof.
  apply (match_other_location_is_free (host NavigatorUndefined offline)
           config_url empty_world).
  vm_compute; reflexivity.
Defined.

(** X10 at two payloads with one checksum: their hashes are equal. *)
Lemma same_digest_same_hash :
  {| algorithm := js "SHA-256"; value := js "0302" |}
  = {| algorithm := js "SHA-256"; value := js "0302" |}
  <-> digest (host NavigatorWith offline) (js "SHA-256") [Byte.x01; Byte.x02]
      = digest (host NavigatorWith offline) (js "SHA-256") [Byte.x02; Byte.x01].
Proof.
  apply (getBlobHash_injective_on_digests (host NavigatorWith offline)
           [Byte.x01; Byte.x02] [Byte.x02; Byte.x01] empty_world empty_world
           {| algorithm := js "SHA-256"; value := js "0302" |}
           {| algorithm := js "SHA-256"; value := js "0302" |});
    vm_compute; reflexivity.
Defined.

(** X11 at a text of one line. *)
Lemma one_line_text_run :
  _getFileHash (host NavigatorWith (serving (js "no file; oid sha256:abc expected")))
    model_url empty_world
  = (Normal (Some (js "no file; oid sha256:abc expected")),
     log empty_world (Fetch (companion model_url))).
Proof.
  refine (getFileHash_one_line_text_whole
            (host NavigatorWith (serving (js "no file; oid sha256:abc expected")))
            model_url empty_world
            {| status := 200;
               text := Normal (js "no file; oid sha256:abc expected") |}
            (js "no file; oid sha256:abc expected") _ _ _ _ _);
    vm_compute; reflexivity.
Defined.
